(** * waterfurnace-py: the REST facade of [app.py]

    A shallow embedding of the data-shaping and failure-handling code of
    [app.py]: the gateway and zone projections of the login data, the
    single-zone lookup, the zone-detail extraction, the supervision handler,
    the backoff handler and the cached gateway read.

    Python values that reach this code come from decoded JSON, so they are
    modelled by the type [json]; Python dictionaries keep their insertion
    order and are modelled by association lists with distinct keys; Python
    exceptions are modelled by the error side of [result]. *)

From Stdlib Require Import List String Ascii ZArith QArith Bool Lia Arith.
From Stdlib Require Import DecimalString DecimalNat.
Import ListNotations.
Local Close Scope Q_scope.
Local Open Scope string_scope.
Local Open Scope list_scope.

(** ** Exceptions and results *)

Inductive exn : Type :=
| KeyError
| ValueError
| TypeError
| AttributeError
| IndexError
| AWLConnectionError
| AWLLoginError
| HTTPException (code : nat).

Inductive result (A : Type) : Type :=
| Ok (a : A)
| Raise (e : exn).

Arguments Ok {A} a.
Arguments Raise {A} e.

Definition exn_eqb (a b : exn) : bool :=
  match a, b with
  | KeyError, KeyError => true
  | ValueError, ValueError => true
  | TypeError, TypeError => true
  | AttributeError, AttributeError => true
  | IndexError, IndexError => true
  | AWLConnectionError, AWLConnectionError => true
  | AWLLoginError, AWLLoginError => true
  | HTTPException m, HTTPException n => Nat.eqb m n
  | _, _ => false
  end.

Definition rbind {A B : Type} (r : result A) (k : A -> result B) : result B :=
  match r with
  | Ok a => k a
  | Raise e => Raise e
  end.

(** ** Decoded JSON values *)

#[local] Set Warnings "-register-all".

Inductive json : Type :=
| JNull
| JBool (b : bool)
| JNum (q : Q)
| JStr (s : string)
| JArr (l : list json)
| JObj (m : list (string * json)).

(** [v is not None] *)
Definition is_not_None (v : json) : bool :=
  match v with
  | JNull => false
  | _ => true
  end.

(** [v == s] for a Python [str] [s]: only a string compares equal to it. *)
Definition json_eq_str (v : json) (s : string) : bool :=
  match v with
  | JStr s' => String.eqb s' s
  | _ => false
  end.

(** ** Dictionaries with string keys, in insertion order *)

Module Dict.

Definition t (V : Type) : Type := list (string * V).

Section Ops.
Context {V : Type}.

Fixpoint get (d : t V) (k : string) : option V :=
  match d with
  | [] => None
  | (k', v) :: d' => if String.eqb k' k then Some v else get d' k
  end.

(** [d[k] = v]: a key already present keeps its position. *)
Fixpoint set (d : t V) (k : string) (v : V) : t V :=
  match d with
  | [] => [(k, v)]
  | (k', v') :: d' =>
      if String.eqb k' k then (k', v) :: d' else (k', v') :: set d' k v
  end.

Fixpoint remove (d : t V) (k : string) : t V :=
  match d with
  | [] => []
  | (k', v') :: d' =>
      if String.eqb k' k then d' else (k', v') :: remove d' k
  end.

Definition keys (d : t V) : list string := map fst d.

(** A Python dictionary holds each key once. *)
Definition wf (d : t V) : Prop := NoDup (keys d).

(** [d.update(items)] for the items of a mapping. *)
Definition update (d : t V) (items : list (string * V)) : t V :=
  fold_left (fun acc kv => set acc (fst kv) (snd kv)) items d.

(** [d.pop(k, default)]: the value found (or the default) and the
    dictionary without the key. *)
Definition pop (d : t V) (k : string) (default : V) : V * t V :=
  match get d k with
  | Some v => (v, remove d k)
  | None => (default, d)
  end.

(** [{f(key): value for (key, value) in items if keep(key)}] *)
Definition comprehension (keep : string -> bool) (f : string -> string)
    (items : list (string * V)) : t V :=
  fold_left
    (fun acc kv => if keep (fst kv) then set acc (f (fst kv)) (snd kv) else acc)
    items [].
End Ops.

End Dict.

(** ** Strings

    A Python [str] is a sequence of characters (code points).  It is
    modelled by the bytes of its UTF-8 encoding, a lone surrogate being
    encoded like the other code points of its range: distinct strings have
    distinct encodings, a string starts with another exactly when its bytes
    do, and a character is a byte that is not a continuation byte together
    with the continuation bytes that follow it. *)

(** The bytes [10xxxxxx], which continue a character. *)
Definition is_continuation (c : ascii) : bool :=
  let n := nat_of_ascii c in ((128 <=? n) && (n <=? 191))%nat.

Fixpoint skip_continuation (s : string) : string :=
  match s with
  | EmptyString => EmptyString
  | String c s' => if is_continuation c then skip_continuation s' else s
  end.

(** [s[1:]]: the string without its first character. *)
Definition str_tail (s : string) : string :=
  match s with
  | EmptyString => EmptyString
  | String _ s' => skip_continuation s'
  end.

Definition starts_with_continuation (s : string) : bool :=
  match s with
  | EmptyString => false
  | String c _ => is_continuation c
  end.

(** The characters of a string, each as a string of one character. *)
Fixpoint characters_of (s : string) : list string :=
  match s with
  | EmptyString => []
  | String c s' =>
      match characters_of s' with
      | ch :: rest =>
          if starts_with_continuation s' then String c ch :: rest
          else String c EmptyString :: ch :: rest
      | [] => [String c EmptyString]
      end
  end.

(** The string without its first [n] bytes: [s[len(p):]] for a string [s]
    that starts with [p], when [n] is the number of bytes of [p]. *)
Fixpoint drop (n : nat) (s : string) : string :=
  match n, s with
  | O, _ => s
  | S _, EmptyString => EmptyString
  | S n', String _ s' => drop n' s'
  end.

(** [s.startswith(p)] *)
Definition startswith (s p : string) : bool := String.prefix p s.

(** [s.replace(old, '', 1)] for a non-empty [old]: the first occurrence of
    [old] in [s], scanning from the left, is removed. *)
Fixpoint remove_first (old s : string) : string :=
  if String.prefix old s then drop (String.length old) s
  else match s with
       | EmptyString => EmptyString
       | String c s' => String c (remove_first old s')
       end.

(** [str(n)] for a non-negative integer. *)
Definition str_of_nat (n : nat) : string :=
  NilEmpty.string_of_uint (Nat.to_uint n).

(** ** Zone detail: [read_zone] *)

(** Keys that [dict.update] may receive from a sequence of pairs: a string,
    or another hashable value (number, boolean, [None]). *)
Inductive update_key : Type :=
| KStr (s : string)
| KOther.

(** One element of the sequence given to [dict.update]: it must iterate to
    exactly two items, the first of them hashable. *)
Definition pair_of_element (x : json) : result (update_key * json) :=
  match x with
  | JArr [k; v] =>
      match k with
      | JStr s => Ok (KStr s, v)
      | JArr _ | JObj _ => Raise TypeError
      | _ => Ok (KOther, v)
      end
  | JArr _ => Raise ValueError
  | JStr s =>
      match characters_of s with
      | [a; b] => Ok (KStr a, JStr b)
      | _ => Raise ValueError
      end
  | JObj [(k1, _); (k2, _)] => Ok (KStr k1, JStr k2)
  | JObj _ => Raise ValueError
  | JNull | JBool _ | JNum _ => Raise TypeError
  end.

Fixpoint pairs_of_sequence (l : list json) : result (list (update_key * json)) :=
  match l with
  | [] => Ok []
  | x :: l' =>
      rbind (pair_of_element x) (fun p =>
      rbind (pairs_of_sequence l') (fun ps => Ok (p :: ps)))
  end.

(** The keys of the pairs when every one of them is a string. *)
Fixpoint string_keyed (ps : list (update_key * json)) : option (list (string * json)) :=
  match ps with
  | [] => Some []
  | (KStr s, v) :: ps' =>
      match string_keyed ps' with
      | Some l => Some ((s, v) :: l)
      | None => None
      end
  | (KOther, _) :: _ => None
  end.

(** What [zone_data.update(v)] adds to the empty [zone_data], as items in
    the order they are written.  A mapping gives its items; a sequence gives
    one pair per element; a non-empty string fails on its first character;
    a number, a boolean or [None] is not iterable.  A key that is not a
    string is accepted by [update] and fails later, when the prefix is
    stripped with [key.replace]. *)
Definition promoted_items (v : json) : result (list (string * json)) :=
  match v with
  | JObj m => Ok m
  | JArr l =>
      rbind (pairs_of_sequence l) (fun ps =>
      match string_keyed ps with
      | Some items => Ok items
      | None => Raise AttributeError
      end)
  | JStr EmptyString => Ok []
  | JStr _ => Raise ValueError
  | JNull | JBool _ | JNum _ => Raise TypeError
  end.

(** [gateway_data.items()] *)
Definition items (v : json) : result (list (string * json)) :=
  match v with
  | JObj m => Ok m
  | _ => Raise AttributeError
  end.

Definition zone_prefix_of (zoneid : nat) : string :=
  "iz2_z" ++ str_of_nat zoneid ++ "_".

(** The body of [read_zone] after the cached gateway read has returned
    [gateway_data]; the result is the mapping handed to [jsonify]. *)
Definition read_zone_data (gateway_data : json) (zoneid : nat) : result (Dict.t json) :=
  let zone_prefix := zone_prefix_of zoneid in
  rbind (items gateway_data) (fun gateway_items =>
  let zone_raw_data :=
    Dict.comprehension (fun key => startswith key zone_prefix) (fun key => key)
      gateway_items in
  let '(activesettings, zone_raw_data) :=
    Dict.pop zone_raw_data (zone_prefix ++ "activesettings") (JObj []) in
  rbind (promoted_items activesettings) (fun promoted =>
  let zone_data := Dict.update [] promoted in
  let zone_data := Dict.update zone_data zone_raw_data in
  Ok (Dict.comprehension (fun _ => true) (remove_first zone_prefix) zone_data))).


(** ** Python operations on decoded JSON *)

(** [v[key]] for a string key: only a mapping can be subscripted by one. *)
Definition subscript (v : json) (key : string) : result json :=
  match v with
  | JObj m =>
      match Dict.get m key with
      | Some x => Ok x
      | None => Raise KeyError
      end
  | _ => Raise TypeError
  end.

(** [v.get(key)]: a method of mappings; an absent key gives [None]. *)
Definition get_method (v : json) (key : string) : result json :=
  match v with
  | JObj m =>
      match Dict.get m key with
      | Some x => Ok x
      | None => Ok JNull
      end
  | _ => Raise AttributeError
  end.

Definition characters (s : string) : list json := map JStr (characters_of s).

(** [for x in v]: a list gives its elements, a mapping its keys, a string
    its characters; nothing else is iterable. *)
Definition iter (v : json) : result (list json) :=
  match v with
  | JArr l => Ok l
  | JObj m => Ok (map (fun kv => JStr (fst kv)) m)
  | JStr s => Ok (characters s)
  | JNull | JBool _ | JNum _ => Raise TypeError
  end.

(** ** What the interpreter brings

    The builtin [int] and the case of the characters beyond ASCII are the
    interpreter's: which characters are decimal digits or blanks, and how
    many digits [int] accepts, depend on its Unicode tables and its
    configuration.  They are taken as they are. *)

Class Interpreter : Type := {
  (** [int(s)] on a [str]: the integer read, or [None] when [int] raises
      [ValueError], the one exception it raises on a [str]. *)
  int_of_str : string -> option Z;
  (** [ch.isupper()] for a character beyond ASCII. *)
  upper_beyond_ascii : string -> bool;
  (** [ch.islower() or ch.istitle()] for a character beyond ASCII. *)
  lower_or_title_beyond_ascii : string -> bool
}.

(** [int(s)] *)
Definition py_int {I : Interpreter} (s : string) : result Z :=
  match int_of_str s with
  | Some z => Ok z
  | None => Raise ValueError
  end.

(** *** An interpreter for the evaluations *)

Definition digit_of (c : ascii) : option Z :=
  let n := nat_of_ascii c in
  if ((48 <=? n) && (n <=? 57))%nat then Some (Z.of_nat (n - 48)) else None.

Fixpoint numeral_value (s : string) (acc : Z) : option Z :=
  match s with
  | EmptyString => Some acc
  | String c s' =>
      match digit_of c with
      | Some d => numeral_value s' (10 * acc + d)%Z
      | None => None
      end
  end.

(** The integer a plain numeral denotes: one to nine ASCII digits and
    nothing else.  On such a string [int] returns this integer; on the
    strings this function does not read, [int] may still return (signs,
    blanks, underscores, longer numerals, other decimal digits). *)
Definition plain_numeral (s : string) : option Z :=
  match s with
  | EmptyString => None
  | _ => if (String.length s <=? 9)%nat then numeral_value s 0 else None
  end.

(** ** Computations that log, call the upstream and may raise *)

Inductive level : Type := DEBUG | INFO | WARNING | ERROR | CRITICAL.

Inductive message : Type :=
| Text (s : string)
| CannotReconnect (tries : nat) (elapsed wait : Q)
| Reconnected (elapsed : Q) (tries : nat).

Inductive event : Type :=
| Log (lvl : level) (msg : message)
| WaitClosed
| Logout
| Sleep (seconds : nat).

(** A computation yields a value or an exception, and the events it caused,
    oldest first. *)
Definition M (A : Type) : Type := (result A * list event)%type.

Definition ret {A : Type} (a : A) : M A := (Ok a, []).

Definition raise {A : Type} (e : exn) : M A := (Raise e, []).

Definition lift {A : Type} (r : result A) : M A := (r, []).

Definition emit (ev : event) : M unit := (Ok tt, [ev]).

Definition log (lvl : level) (s : string) : M unit := emit (Log lvl (Text s)).

Definition bind {A B : Type} (m : M A) (k : A -> M B) : M B :=
  match m with
  | (Ok a, t) => let '(r, t') := k a in (r, t ++ t')
  | (Raise e, t) => (Raise e, t)
  end.

(** [try: m  except ...: handler]: [handler e] is [None] when no [except]
    clause matches [e]. *)
Definition try_except {A : Type} (m : M A) (handler : exn -> option (M A)) : M A :=
  match m with
  | (Ok a, t) => (Ok a, t)
  | (Raise e, t) =>
      match handler e with
      | Some h => let '(r, t') := h in (r, t ++ t')
      | None => (Raise e, t)
      end
  end.

Declare Scope comp_scope.
Delimit Scope comp_scope with comp.
Notation "x <- m ;; k" := (bind m (fun x => k))
  (at level 100, m at next level, right associativity) : comp_scope.
Notation "m ;; k" := (bind m (fun _ => k))
  (at level 100, right associativity) : comp_scope.
Local Open Scope comp_scope.

(** [for x in xs: body], threading the variables the body assigns. *)
Fixpoint for_each {X S : Type} (xs : list X) (body : X -> S -> M S) (s : S) : M S :=
  match xs with
  | [] => ret s
  | x :: xs' => s' <- body x s ;; for_each xs' body s'
  end.

(** ** Projections of the login data *)

Record gateway_record : Type := mk_gateway_record {
  g_location : json;
  g_gwid : json;
  g_system_name : json
}.

Record zone_record : Type := mk_zone_record {
  z_location : json;
  z_gwid : json;
  z_system_name : json;
  z_zoneid : Z;
  z_zone_name : json
}.

Definition couldnt_get_gwid : string := "Couldn't get gwid".

(** The message is a plain string in the source, so the braces are logged
    as written. *)
Definition couldnt_convert_zone_key : string :=
  "Couldn't convert zone key " ++ String "034" ("{key[1:]}" ++ String "034" " to int").

Definition awl_enumerate_gateways (awl_login_data : json) : M (list gateway_record) :=
  locations <- lift (rbind (subscript awl_login_data "locations") iter) ;;
  for_each locations (fun location gateways =>
    location_gateways <- lift (rbind (subscript location "gateways") iter) ;;
    for_each location_gateways (fun gateway gateways =>
      try_except
        (l <- lift (get_method location "description") ;;
         g <- lift (subscript gateway "gwid") ;;
         n <- lift (get_method gateway "description") ;;
         ret (gateways ++ [mk_gateway_record l g n]))
        (fun e =>
           match e with
           | KeyError => Some (log ERROR couldnt_get_gwid ;; ret gateways)
           | _ => None
           end))
      gateways)
    [].

Definition awl_enumerate_zones {I : Interpreter} (awl_login_data : json)
    : M (list zone_record) :=
  locations <- lift (rbind (subscript awl_login_data "locations") iter) ;;
  for_each locations (fun location thermostats =>
    location_gateways <- lift (rbind (subscript location "gateways") iter) ;;
    for_each location_gateways (fun gateway thermostats =>
      tstat_names <- lift (rbind (subscript gateway "tstat_names") items) ;;
      for_each tstat_names (fun '(key, zone_name) thermostats =>
        if is_not_None zone_name then
          try_except
            (l <- lift (get_method location "description") ;;
             g <- lift (subscript gateway "gwid") ;;
             n <- lift (get_method gateway "description") ;;
             z <- lift (py_int (str_tail key)) ;;
             ret (thermostats ++ [mk_zone_record l g n z zone_name]))
            (fun e =>
               match e with
               | ValueError => Some (log ERROR couldnt_convert_zone_key ;; ret thermostats)
               | KeyError => Some (log ERROR couldnt_get_gwid ;; ret thermostats)
               | _ => None
               end)
        else ret thermostats)
        thermostats)
      thermostats)
    [].

(** [abort(code)] *)
Definition abort {A : Type} (code : nat) : M A := raise (HTTPException code).

(** Route [/zones]. *)
Definition list_thermostats {I : Interpreter} (awl_login_data : json)
    : M (list zone_record) :=
  awl_enumerate_zones awl_login_data.

(** [zone['gwid'] == gwid and zone['zoneid'] == zoneid] *)
Definition zone_matches (gwid : string) (zoneid : nat) (zone : zone_record) : bool :=
  json_eq_str (z_gwid zone) gwid && (z_zoneid zone =? Z.of_nat zoneid)%Z.

(** Route [/gateways/<gwid>/zones/<int:zoneid>]; the converter [int]
    accepts the non-negative integers. *)
Definition view_gateway_zone {I : Interpreter} (awl_login_data : json) (gwid : string)
    (zoneid : nat)
    : M zone_record :=
  zones <- awl_enumerate_zones awl_login_data ;;
  let gateway_zone := filter (zone_matches gwid zoneid) zones in
  (if (List.length gateway_zone =? 0)%nat then abort 404 else ret tt) ;;
  (if (1 <? List.length gateway_zone)%nat then abort 500 else ret tt) ;;
  match gateway_zone with
  | zone :: _ => ret zone
  | [] => raise IndexError
  end.

(** ** Session supervision *)

(** Modelled from the spec: the upstream client of module [awl] is opaque.
    Its [wait_closed] and [logout] complete or raise, and a connection-class
    failure ([AWLConnectionError]) and a login-class failure
    ([AWLLoginError]) are different classes, neither one a kind of the
    other.  A connection is given by what these two calls do. *)
Record connection : Type := mk_connection {
  wait_closed_outcome : result unit;
  logout_outcome : result unit
}.

Definition wait_closed (c : connection) : M unit :=
  emit WaitClosed ;; lift (wait_closed_outcome c).

Definition logout (c : connection) : M unit :=
  emit Logout ;; lift (logout_outcome c).

(** The supervision task.  [establish_awl_session] is the decorated
    coroutine it ends with, given by what it logs and whether it raises. *)
Definition awl_reconnection_handler (c : connection) (establish_awl_session : M unit)
    : M unit :=
  try_except
    (wait_closed c ;;
     log DEBUG "app.awl_connection.wait_closed() finished")
    (fun e =>
       match e with
       | AWLConnectionError =>
           Some (try_except
                   (log INFO "Logging out of AWL" ;;
                    logout c ;;
                    log INFO "AWL logout complete")
                   (fun e' =>
                      match e' with
                      | AWLLoginError => Some (log INFO "AWL logout failed; ignoring")
                      | _ => None
                      end))
       | _ => None
       end) ;;
  emit (Sleep 1) ;;
  log INFO "Reconnecting to AWL" ;;
  establish_awl_session.

(** ** Configuration and the backoff handlers *)

Inductive config_value : Type :=
| CNone
| CInt (z : Z)
| CFloat (q : Q)
| CStr (s : string).

Definition config : Type := Dict.t config_value.

(** [ch.isupper()] and [ch.islower() or ch.istitle()] for a character, given
    as a string of one character: the letters of ASCII, and beyond ASCII what
    the interpreter says. *)
Definition char_isupper {I : Interpreter} (ch : string) : bool :=
  match ch with
  | String c EmptyString =>
      let n := nat_of_ascii c in
      if (n <? 128)%nat then ((65 <=? n) && (n <=? 90))%nat else upper_beyond_ascii ch
  | _ => upper_beyond_ascii ch
  end.

Definition char_islower_or_title {I : Interpreter} (ch : string) : bool :=
  match ch with
  | String c EmptyString =>
      let n := nat_of_ascii c in
      if (n <? 128)%nat then ((97 <=? n) && (n <=? 122))%nat
      else lower_or_title_beyond_ascii ch
  | _ => lower_or_title_beyond_ascii ch
  end.

(** [s.isupper()]: a string of one character is upper case when the
    character is; otherwise no character is lower case or title case, and
    some character is upper case. *)
Definition isupper {I : Interpreter} (s : string) : bool :=
  match characters_of s with
  | [] => false
  | [ch] => char_isupper ch
  | chars => negb (existsb char_islower_or_title chars) && existsb char_isupper chars
  end.

(** [Config.from_mapping]: the keys in upper case are stored, the others
    are left out. *)
Definition from_mapping {I : Interpreter} (cfg : config)
    (mapping : list (string * config_value)) : config :=
  Dict.update cfg (filter (fun kv => isupper (fst kv)) mapping).

(** [Config.from_envvar(name, silent=True)].  [config_file] is [None] when
    the environment variable is not set, and the loader then raises
    [TypeError]; otherwise it is what loading the file the variable names
    gives: the names the file defines, of which those in upper case are
    stored, or the exception the loading raises. *)
Definition from_envvar {I : Interpreter} (cfg : config)
    (config_file : option (result (list (string * config_value)))) : result config :=
  match config_file with
  | None => Raise TypeError
  | Some (Raise e) => Raise e
  | Some (Ok settings) => Ok (from_mapping cfg settings)
  end.

(** The configuration as the module builds it: the defaults of the
    environment, the common defaults, then the configuration file. *)
Definition app_config {I : Interpreter} (defaults : config) (env instance_path : string)
    (config_file : option (result (list (string * config_value)))) : result config :=
  let cfg :=
    if String.eqb env "development" || String.eqb env "testing" then
      from_mapping defaults [("WEBSOCKETS_WARN_AFTER_DISCONNECTED", CInt 0)]
    else if String.eqb env "production" then
      from_mapping defaults [("WEBSOCKETS_WARN_AFTER_DISCONNECTED", CInt 10)]
    else defaults in
  let cfg :=
    from_mapping cfg [("LOG_DIRECTORY", CStr instance_path);
                      ("TRACE_LOG", CNone);
                      ("ACCESS_LOG", CStr "access.log")] in
  from_envvar cfg config_file.

(** [app.config[key]] *)
Definition config_subscript (cfg : config) (key : string) : result config_value :=
  match Dict.get cfg key with
  | Some v => Ok v
  | None => Raise KeyError
  end.

(** The [details] the backoff decorator passes to its handlers. *)
Record details : Type := mk_details {
  tries : nat;
  elapsed : Q;
  wait : Q
}.

(** [a < b] *)
Definition Qltb (a b : Q) : bool := negb (Qle_bool b a).

Section BackoffHandlers.

(** The builtin [float] on a configuration value: the number it denotes,
    or the exception it raises ([ValueError] for a string that is not a
    number, [TypeError] for [None]). *)
Variable float : config_value -> result Q.

Definition backoff_handler (app_config : config) (d : details) : M unit :=
  max_elapsed <-
    try_except
      (lift (rbind (config_subscript app_config "websockets_warn_after_disconnected")
               float))
      (fun e =>
         match e with
         | ValueError => Some (ret 0%Q)
         | _ => None
         end) ;;
  if Qltb max_elapsed (elapsed d) then
    emit (Log CRITICAL (CannotReconnect (tries d) (elapsed d) (wait d)))
  else ret tt.

Definition backoff_success_handler (d : details) : M unit :=
  if (1 <? tries d)%nat then
    emit (Log WARNING (Reconnected (elapsed d) (tries d)))
  else ret tt.

End BackoffHandlers.

(** ** The cached gateway read *)

(** Modelled from the spec: the decorator [timed_cache] of module
    [timed_cache] is not under src/.  An entry of its store keeps a value
    and the time it was inserted at; it expires at [insertedAt + ttl]. *)
Record cache_entry : Type := mk_cache_entry {
  stored_value : json;
  insertedAt : Q
}.

(** Modelled from the spec: a hit of the missing [timed_cache] is an entry
    that exists with [now < insertedAt + ttl]. *)
Definition cache_hit (cache : Dict.t cache_entry) (now : Q) (key : string) (ttl : Q)
    : option json :=
  match Dict.get cache key with
  | Some entry =>
      if Qltb now (insertedAt entry + ttl)%Q then Some (stored_value entry) else None
  | None => None
  end.

(** Modelled from the spec: [get_or_compute] of the missing [timed_cache].
    On a hit the stored value is returned and [compute] is not invoked; on a
    miss [compute key] is invoked, its result stored with [insertedAt = now]
    and returned; when [compute] fails nothing is stored and the error is
    the caller's.  [W] is whatever [compute] acts on. *)
Definition get_or_compute {W : Type} (compute : string -> W -> result json * W)
    (ttl : Q) (now : Q) (key : string) (st : Dict.t cache_entry * W)
    : result json * (Dict.t cache_entry * W) :=
  let '(cache, w) := st in
  match cache_hit cache now key ttl with
  | Some v => (Ok v, (cache, w))
  | None =>
      match compute key w with
      | (Ok v, w') => (Ok v, (Dict.set cache key (mk_cache_entry v now), w'))
      | (Raise e, w') => (Raise e, (cache, w'))
      end
  end.

Section Facade.

(** The state of the upstream session and [app.awl_connection.read] on
    it. *)
Context {U : Type}.
Variable read : string -> U -> result json * U.

(** The upstream together with the reads made of it, oldest first. *)
Definition upstream : Type := (U * list string)%type.

(** The body of [awl_read_gateway]. *)
Definition connection_read (gwid : string) (w : upstream) : result json * upstream :=
  let '(u, reads) := w in
  let '(r, u') := read gwid u in
  (r, (u', reads ++ [gwid])).

(** [awl_read_gateway], cached for 10 seconds. *)
Definition awl_read_gateway (now : Q) (gwid : string)
    (st : Dict.t cache_entry * upstream)
    : result json * (Dict.t cache_entry * upstream) :=
  get_or_compute connection_read 10%Q now gwid st.

(** Route [/gateways/<gwid>]. *)
Definition read_gateway (now : Q) (gwid : string)
    (st : Dict.t cache_entry * upstream)
    : result json * (Dict.t cache_entry * upstream) :=
  awl_read_gateway now gwid st.

(** Route [/gateways/<gwid>/zones/<int:zoneid>/details]. *)
Definition read_zone (now : Q) (gwid : string) (zoneid : nat)
    (st : Dict.t cache_entry * upstream)
    : result (Dict.t json) * (Dict.t cache_entry * upstream) :=
  let '(gateway_data, st') := awl_read_gateway now gwid st in
  (rbind gateway_data (fun gateway_data => read_zone_data gateway_data zoneid), st').

End Facade.

(** ** Statements about the zone detail *)

Definition spec_example_payload : json :=
  JObj [("iz2_z1_activesettings", JObj [("mode", JStr "heat")]);
        ("iz2_z1_fan", JStr "on");
        ("iz2_z2_fan", JStr "off")].

Definition colliding_payload : json :=
  JObj [("iz2_z1_activesettings", JObj [("mode", JStr "heat")]);
        ("iz2_z1_mode", JStr "cool")].

(** In [d], the entry [(k, v)] is followed only by other keys that start
    with the prefix [p]. *)
Definition last_writer (p : string) (d : Dict.t json) (k : string) (v : json) : Prop :=
  exists d1 d2,
    d = d1 ++ (k, v) :: d2 /\
    Forall (fun x => startswith x p = true /\ x <> k) (Dict.keys d2).

(** ** Statements about the projections *)

(** [v.get('description')] of a mapping. *)
Definition description_of (v : json) : json :=
  match get_method v "description" with
  | Ok d => d
  | Raise _ => JNull
  end.

Definition is_mapping (v : json) : bool :=
  match v with
  | JObj _ => true
  | _ => false
  end.

(** The locations the enumerations iterate over, the gateways of a
    location and the zone names of a gateway; empty where the source
    raises. *)
Definition locations_of (awl_login_data : json) : list json :=
  match rbind (subscript awl_login_data "locations") iter with
  | Ok l => l
  | Raise _ => []
  end.

Definition gateways_of (location : json) : list json :=
  match rbind (subscript location "gateways") iter with
  | Ok l => l
  | Raise _ => []
  end.

Definition tstat_names_of (gateway : json) : list (string * json) :=
  match rbind (subscript gateway "tstat_names") items with
  | Ok m => m
  | Raise _ => []
  end.

(** The login data have a list of locations, each a mapping with a list of
    gateways, and [ok_gateway] holds of every gateway. *)
Definition shaped (ok_gateway : json -> bool) (awl_login_data : json) : bool :=
  match subscript awl_login_data "locations" with
  | Ok (JArr locations) =>
      forallb
        (fun location =>
           match subscript location "gateways" with
           | Ok (JArr gateways) => forallb ok_gateway gateways
           | _ => false
           end)
        locations
  | _ => false
  end.

(** Every gateway is a mapping. *)
Definition gateways_shaped : json -> bool := shaped is_mapping.

(** Every gateway is a mapping with a mapping of zone names. *)
Definition zones_shaped : json -> bool :=
  shaped (fun gateway =>
            match subscript gateway "tstat_names" with
            | Ok (JObj _) => true
            | _ => false
            end).

(** The records and the log lines one gateway gives rise to. *)
Definition emitted_gateway (location gateway : json) : list gateway_record :=
  match subscript gateway "gwid" with
  | Ok g => [mk_gateway_record (description_of location) g (description_of gateway)]
  | Raise _ => []
  end.

Definition skipped_gateway (gateway : json) : list event :=
  match subscript gateway "gwid" with
  | Ok _ => []
  | Raise _ => [Log ERROR (Text couldnt_get_gwid)]
  end.

(** The records and the log lines one entry of [tstat_names] gives rise
    to. *)
Definition emitted_zone {I : Interpreter} (location gateway : json) (entry : string * json)
    : list zone_record :=
  if is_not_None (snd entry) then
    match subscript gateway "gwid", py_int (str_tail (fst entry)) with
    | Ok g, Ok z =>
        [mk_zone_record (description_of location) g (description_of gateway) z (snd entry)]
    | _, _ => []
    end
  else [].

Definition skipped_zone {I : Interpreter} (gateway : json) (entry : string * json)
    : list event :=
  if is_not_None (snd entry) then
    match subscript gateway "gwid", py_int (str_tail (fst entry)) with
    | Ok _, Ok _ => []
    | Ok _, Raise _ => [Log ERROR (Text couldnt_convert_zone_key)]
    | Raise _, _ => [Log ERROR (Text couldnt_get_gwid)]
    end
  else [].

Definition expected_gateways (awl_login_data : json) : list gateway_record :=
  flat_map (fun location => flat_map (emitted_gateway location) (gateways_of location))
    (locations_of awl_login_data).

Definition expected_gateway_log (awl_login_data : json) : list event :=
  flat_map (fun location => flat_map skipped_gateway (gateways_of location))
    (locations_of awl_login_data).

Definition expected_zones {I : Interpreter} (awl_login_data : json) : list zone_record :=
  flat_map
    (fun location =>
       flat_map
         (fun gateway => flat_map (emitted_zone location gateway) (tstat_names_of gateway))
         (gateways_of location))
    (locations_of awl_login_data).

Definition expected_zone_log {I : Interpreter} (awl_login_data : json) : list event :=
  flat_map
    (fun location =>
       flat_map
         (fun gateway => flat_map (skipped_zone gateway) (tstat_names_of gateway))
         (gateways_of location))
    (locations_of awl_login_data).

(** The interpreter of the evaluations: it reads the plain numerals, and
    the strings it is given hold ASCII characters only. *)
Definition evaluation : Interpreter := {|
  int_of_str := plain_numeral;
  upper_beyond_ascii := fun _ => false;
  lower_or_title_beyond_ascii := fun _ => false
|}.

(** Login data used in the evaluations. *)
Definition two_locations : json :=
  JObj [("locations", JArr [
    JObj [("description", JStr "Home");
          ("gateways", JArr [
             JObj [("gwid", JStr "G1"); ("description", JStr "Main");
                   ("tstat_names", JObj [("z1", JStr "Upstairs"); ("z2", JNull);
                                         ("zx", JStr "Attic"); ("z3", JStr "Den")])];
             JObj [("description", JStr "Unnamed");
                   ("tstat_names", JObj [("z1", JStr "Shed")])]])];
    JObj [("gateways", JArr [
             JObj [("gwid", JStr "G2");
                   ("tstat_names", JObj [("z1", JStr "Cabin")])]])]])].

Definition null_gwid_login : json :=
  JObj [("locations", JArr [JObj [("gateways", JArr [JObj [("gwid", JNull)]])]])].

Definition no_tstat_names_login : json :=
  JObj [("locations", JArr [
    JObj [("gateways", JArr [JObj [("gwid", JStr "G1")]])]])].

Definition no_gateways_login : json :=
  JObj [("locations", JArr [JObj [("description", JStr "Home")]])].

Definition duplicated_zone_login : json :=
  JObj [("locations", JArr [
    JObj [("gateways", JArr [
      JObj [("gwid", JStr "G1");
            ("tstat_names", JObj [("z1", JStr "Upstairs"); ("a1", JStr "Again")])]])]])].

(** The zone has the gateway id and the zone id of a request. *)
Definition zone_requested (gwid : string) (zoneid : nat) (zone : zone_record) : Prop :=
  z_gwid zone = JStr gwid /\ z_zoneid zone = Z.of_nat zoneid.

(** What holds of a zone record emitted from the login data: its name is
    not null, and it comes from an entry of the zone names of a gateway of a
    location, whose key without its first character reads as the zone id. *)
Definition zone_from {I : Interpreter} (awl_login_data : json) (zone : zone_record)
    : Prop :=
  z_zone_name zone <> JNull /\
  exists location gateway key,
    In location (locations_of awl_login_data) /\
    In gateway (gateways_of location) /\
    In (key, z_zone_name zone) (tstat_names_of gateway) /\
    py_int (str_tail key) = Ok (z_zoneid zone) /\
    subscript gateway "gwid" = Ok (z_gwid zone).

(** An upstream that counts its reads: the first read fails, the later ones
    return the number of the read. *)
Definition counting_read (gwid : string) (n : nat) : result json * nat :=
  match n with
  | O => (Raise AWLConnectionError, S n)
  | S _ => (Ok (JStr (str_of_nat n)), S n)
  end.

(** ** The remaining routes and the start-up check *)

(** Route [/gateways/<gwid>/zones]: the wildcard gives every zone. *)
Definition list_gateway_zones {I : Interpreter} (awl_login_data : json) (gwid : string)
    : M (list zone_record) :=
  if String.eqb gwid "*" then list_thermostats awl_login_data
  else
    zones <- awl_enumerate_zones awl_login_data ;;
    ret (filter (fun zone => json_eq_str (z_gwid zone) gwid) zones).

Definition required_config_keys : list string :=
  ["WATERFURNACE_USER"; "WATERFURNACE_PASSWORD"; "LOG_DIRECTORY"].

(** [name not in app.config] *)
Definition not_in_config (cfg : config) (name : string) : bool :=
  match Dict.get cfg name with
  | Some _ => false
  | None => true
  end.

(** The validation of the configuration: the first required key that is
    missing, for which the module prints a message and exits with status
    255; [None] when the module goes on. *)
Definition missing_config_key (cfg : config) : option string :=
  find (not_in_config cfg) required_config_keys.

(** ** Statements about the remaining routes *)

(** All the gateways of the login data, in the order of the enumeration. *)
Definition all_gateways (awl_login_data : json) : list json :=
  flat_map gateways_of (locations_of awl_login_data).

(** The gateway id of a gateway, when it is a string: the ids a request
    can name. *)
Definition gwid_of (gateway : json) : list string :=
  match subscript gateway "gwid" with
  | Ok (JStr s) => [s]
  | _ => []
  end.

(** The zone id an entry of the zone names is enumerated under, when it is
    enumerated. *)
Definition zoneid_of {I : Interpreter} (entry : string * json) : list Z :=
  if is_not_None (snd entry) then
    match py_int (str_tail (fst entry)) with
    | Ok z => [z]
    | Raise _ => []
    end
  else [].

(** The entries of the zone names of all gateways that have a name. *)
Definition named_entries (awl_login_data : json) : list (string * json) :=
  flat_map
    (fun gateway => filter (fun entry => is_not_None (snd entry)) (tstat_names_of gateway))
    (all_gateways awl_login_data).

(** The characters of [s] are decimal digits. *)
Definition all_digits (s : string) : bool :=
  forallb (fun c => match digit_of c with Some _ => true | None => false end)
    (list_ascii_of_string s).

(** ** Statements about the supervision task *)

(** The outcomes of the upstream calls after which the handler goes on to
    the reconnection: the wait returned, or it raised a connection error and
    the logout returned or raised a login error. *)
Definition reestablishes (c : connection) : Prop :=
  wait_closed_outcome c = Ok tt \/
  (wait_closed_outcome c = Raise AWLConnectionError /\
   (logout_outcome c = Ok tt \/ logout_outcome c = Raise AWLLoginError)).

(** ** Statements about malformed login data *)

(** A gateway the zone enumeration can iterate over, and a location all of
    whose gateways are such. *)
Definition zone_gateway_ok (gateway : json) : bool :=
  match subscript gateway "tstat_names" with
  | Ok (JObj _) => true
  | _ => false
  end.

Definition zone_location_ok (location : json) : bool :=
  match subscript location "gateways" with
  | Ok (JArr gateways) => forallb zone_gateway_ok gateways
  | _ => false
  end.

Definition broken_gateway_login : json :=
  JObj [("locations", JArr [
    JObj [("gateways", JArr [
      JObj [("gwid", JStr "G1"); ("tstat_names", JObj [("z1", JStr "Upstairs")])];
      JObj [("gwid", JStr "G2")];
      JObj [("gwid", JStr "G3"); ("tstat_names", JObj [("z1", JStr "Cabin")])]])]])].

(** ** Evaluations *)

Example read_zone_spec_example :
  read_zone_data spec_example_payload 1
  = Ok [("mode", JStr "heat"); ("fan", JStr "on")].
Proof. reflexivity. Qed.

Example read_zone_colliding :
  read_zone_data colliding_payload 1 = Ok [("mode", JStr "cool")].
Proof. reflexivity. Qed.

(** ** Facts about dictionaries *)

Module DictFacts.
Import Dict.

Section Facts.
Context {V : Type}.
Implicit Types (d : Dict.t V) (k : string) (v : V).

Lemma get_set_same d k v : get (set d k v) k = Some v.
Proof.
  induction d as [|[k' v'] d IH]; simpl.
  - now rewrite String.eqb_refl.
  - destruct (String.eqb k' k) eqn:E; simpl; rewrite E; auto.
Qed.

Lemma get_set_other d k k' v : k <> k' -> get (set d k v) k' = get d k'.
Proof.
  intros Hne.
  induction d as [|[k0 v0] d IH]; simpl.
  - destruct (String.eqb k k') eqn:E; auto.
    apply String.eqb_eq in E; contradiction.
  - destruct (String.eqb k0 k) eqn:E; simpl.
    + apply String.eqb_eq in E; subst k0.
      destruct (String.eqb k k') eqn:E'; auto.
      apply String.eqb_eq in E'; contradiction.
    + now rewrite IH.
Qed.

Lemma get_In d k v : get d k = Some v -> In (k, v) d.
Proof.
  induction d as [|[k' v'] d IH]; simpl; [discriminate|].
  destruct (String.eqb k' k) eqn:E; intros H.
  - apply String.eqb_eq in E; inversion H; subst; now left.
  - right; auto.
Qed.

Lemma get_None_notin d k : get d k = None -> ~ In k (keys d).
Proof.
  induction d as [|[k' v'] d IH]; simpl; [tauto|].
  destruct (String.eqb k' k) eqn:E; [discriminate|].
  apply String.eqb_neq in E; intros H [H1|H1]; [contradiction|].
  now apply IH.
Qed.

Lemma notin_get_None d k : ~ In k (keys d) -> get d k = None.
Proof.
  induction d as [|[k' v'] d IH]; simpl; [reflexivity|].
  intros H; destruct (String.eqb k' k) eqn:E.
  - apply String.eqb_eq in E; tauto.
  - apply IH; tauto.
Qed.

Lemma In_keys d k v : In (k, v) d -> In k (keys d).
Proof. intros H; apply (in_map fst) in H; exact H. Qed.

Lemma set_notin d k v : ~ In k (keys d) -> set d k v = d ++ [(k, v)].
Proof.
  induction d as [|[k' v'] d IH]; simpl; [reflexivity|].
  intros H; destruct (String.eqb k' k) eqn:E.
  - apply String.eqb_eq in E; tauto.
  - f_equal; apply IH; tauto.
Qed.

(** Writing a key changes no position: the keys stay, or the new key
    comes last. *)
Lemma keys_set d k v :
  keys (set d k v) = if in_dec string_dec k (keys d) then keys d else keys d ++ [k].
Proof.
  unfold keys.
  induction d as [|[k' v'] d IH]; simpl.
  - reflexivity.
  - destruct (String.eqb k' k) eqn:E.
    + apply String.eqb_eq in E; subst k'.
      destruct (string_dec k k); [|contradiction]; reflexivity.
    + apply String.eqb_neq in E.
      destruct (string_dec k' k); [contradiction|].
      simpl; rewrite IH.
      destruct (in_dec string_dec k (map fst d)); reflexivity.
Qed.

Lemma In_keys_set d k v x : In x (keys (set d k v)) <-> x = k \/ In x (keys d).
Proof.
  rewrite keys_set.
  destruct (in_dec string_dec k (keys d)) as [Hin|Hnin].
  - split; [tauto|]. intros [->|H]; auto.
  - rewrite in_app_iff; simpl; split; intros H; intuition congruence.
Qed.

Lemma set_app d1 d2 k v :
  set (d1 ++ d2) k v =
  if in_dec string_dec k (keys d1) then set d1 k v ++ d2 else d1 ++ set d2 k v.
Proof.
  induction d1 as [|[k' v'] d1 IH]; simpl.
  - reflexivity.
  - destruct (String.eqb k' k) eqn:E.
    + apply String.eqb_eq in E; subst k'.
      destruct (string_dec k k); [|contradiction]; reflexivity.
    + apply String.eqb_neq in E.
      destruct (string_dec k' k); [contradiction|].
      rewrite IH; unfold keys.
      destruct (in_dec string_dec k (map fst d1)); reflexivity.
Qed.

Lemma wf_set d k v : wf d -> wf (set d k v).
Proof.
  unfold wf; intros H; rewrite keys_set.
  destruct (in_dec string_dec k (keys d)) as [Hin|Hnin]; [assumption|].
  apply NoDup_app; [assumption | repeat constructor; simpl; tauto |].
  intros x Hx [<-|[]]; contradiction.
Qed.

Lemma wf_update items : forall d, wf d -> wf (update d items).
Proof.
  induction items as [|[k v] items IH]; simpl; intros d H; [assumption|].
  apply IH, wf_set, H.
Qed.

Lemma update_app_new items :
  forall d, NoDup (keys items) ->
    (forall x, In x (keys items) -> ~ In x (keys d)) ->
    update d items = d ++ items.
Proof.
  induction items as [|[k v] items IH]; simpl; intros d Hnd Hdisj.
  - now rewrite app_nil_r.
  - inversion Hnd as [|? ? Hk Hnd']; subst.
    unfold update in *; simpl.
    rewrite set_notin by (apply Hdisj; now left).
    rewrite IH; [now rewrite <- app_assoc | assumption |].
    intros x Hx; unfold keys; rewrite map_app, in_app_iff; simpl.
    intros [H|[<-|[]]]; [|contradiction].
    apply (Hdisj x); auto.
Qed.

Lemma In_remove d k k0 v : In (k, v) d -> k <> k0 -> In (k, v) (remove d k0).
Proof.
  induction d as [|[k' v'] d IH]; simpl; [tauto|].
  intros [H|H] Hne.
  - inversion H; subst.
    destruct (String.eqb k k0) eqn:E; [apply String.eqb_eq in E; contradiction|].
    now left.
  - destruct (String.eqb k' k0); [assumption|]. right; auto.
Qed.

Lemma keys_remove_incl d k0 x : In x (keys (remove d k0)) -> In x (keys d).
Proof.
  induction d as [|[k' v'] d IH]; simpl; [tauto|].
  destruct (String.eqb k' k0); simpl; [tauto|].
  intros [H|H]; auto.
Qed.

Lemma wf_remove d k0 : wf d -> wf (remove d k0).
Proof.
  unfold wf; induction d as [|[k' v'] d IH]; simpl; intros H; [constructor|].
  inversion H as [|? ? Hk Hnd]; subst.
  destruct (String.eqb k' k0); [assumption|].
  simpl; constructor; [|auto].
  intros Hin; apply Hk, (keys_remove_incl d k0), Hin.
Qed.

Lemma get_filter (p : string -> bool) d k :
  p k = true -> get (filter (fun kv => p (fst kv)) d) k = get d k.
Proof.
  intros Hp; induction d as [|[k' v'] d IH]; simpl; [reflexivity|].
  destruct (p k') eqn:Hk'; simpl.
  - now rewrite IH.
  - destruct (String.eqb k' k) eqn:E; [|assumption].
    apply String.eqb_eq in E; congruence.
Qed.

Lemma keys_filter_incl (p : string -> bool) d x :
  In x (keys (filter (fun kv => p (fst kv)) d)) -> In x (keys d) /\ p x = true.
Proof.
  induction d as [|[k' v'] d IH]; simpl; [tauto|].
  destruct (p k') eqn:Hk'; simpl.
  - intros [<-|H]; [auto|]. destruct (IH H); auto.
  - intros H; destruct (IH H); auto.
Qed.

Lemma wf_filter (p : string -> bool) d :
  wf d -> wf (filter (fun kv => p (fst kv)) d).
Proof.
  unfold wf; induction d as [|[k' v'] d IH]; simpl; intros H; [constructor|].
  inversion H as [|? ? Hk Hnd]; subst.
  destruct (p k'); simpl; [|auto].
  constructor; [|auto].
  intros Hin; apply Hk, (keys_filter_incl p d k' Hin).
Qed.

(** A comprehension that keeps the keys as they are, over the items of
    a dictionary, is the filter of these items. *)
Lemma comprehension_filter (p : string -> bool) d :
  wf d ->
  comprehension p (fun key => key) d = filter (fun kv => p (fst kv)) d.
Proof.
  unfold comprehension.
  assert (G : forall (l : list (string * V)) (acc : Dict.t V),
             NoDup (keys l) ->
             (forall x, In x (keys l) -> ~ In x (keys acc)) ->
             fold_left
               (fun acc kv => if p (fst kv) then set acc (fst kv) (snd kv) else acc)
               l acc
             = acc ++ filter (fun kv => p (fst kv)) l).
  { induction l as [|[k v] l IH]; simpl; intros acc Hnd Hdisj.
    - now rewrite app_nil_r.
    - inversion Hnd as [|? ? Hk Hnd']; subst.
      destruct (p k) eqn:Hpk.
      + rewrite set_notin by (apply Hdisj; now left).
        rewrite IH; [simpl; now rewrite <- app_assoc | assumption |].
        intros x Hx; unfold keys; rewrite map_app, in_app_iff; simpl.
        intros [H|[<-|[]]]; [|contradiction].
        apply (Hdisj x); auto.
      + apply IH; [assumption|]. intros x Hx; apply Hdisj; auto. }
  intros Hwf; apply (G d []); [exact Hwf | intros x _ []].
Qed.

End Facts.
End DictFacts.

(** ** Facts about strings *)

Lemma prefix_app (p s : string) : String.prefix p (p ++ s)%string = true.
Proof.
  induction p as [|c p IH]; simpl.
  - now destruct s.
  - destruct (ascii_dec c c); [assumption | contradiction].
Qed.

Lemma drop_app (p s : string) : drop (String.length p) (p ++ s)%string = s.
Proof. induction p as [|c p IH]; simpl; auto. Qed.

Lemma prefix_split (p : string) :
  forall s, String.prefix p s = true -> s = (p ++ drop (String.length p) s)%string.
Proof.
  induction p as [|c p IH]; intros s H; simpl.
  - reflexivity.
  - destruct s as [|c' s]; simpl in H; [discriminate|].
    destruct (ascii_dec c c'); [|discriminate].
    subst c'; simpl; f_equal; auto.
Qed.

Lemma remove_first_unfold (old s : string) :
  remove_first old s =
  if String.prefix old s then drop (String.length old) s
  else match s with
       | EmptyString => EmptyString
       | String c s' => String c (remove_first old s')
       end.
Proof. destruct s; reflexivity. Qed.

(** A key that starts with the prefix loses exactly this prefix. *)
Lemma remove_first_app (p s : string) : remove_first p (p ++ s)%string = s.
Proof. rewrite remove_first_unfold, prefix_app; apply drop_app. Qed.

(** Stripping is injective on the keys that start with the prefix. *)
Lemma remove_first_inj (p k k' : string) :
  startswith k p = true -> startswith k' p = true ->
  remove_first p k = remove_first p k' -> k = k'.
Proof.
  unfold startswith; intros H H' E.
  rewrite (prefix_split p k H), (prefix_split p k' H') in E |- *.
  rewrite !remove_first_app in E; now rewrite E.
Qed.

(** ** Facts about the zone detail *)

Section ZoneDetail.
Import Dict DictFacts.

Variable f : string -> string.

Let step (acc : Dict.t json) (kv : string * json) : Dict.t json :=
  if (fun _ : string => true) (fst kv) then set acc (f (fst kv)) (snd kv) else acc.

Lemma comprehension_skip (x : string) (l : list (string * json)) :
  forall acc,
    Forall (fun kv => f (fst kv) <> x) l ->
    get (fold_left step l acc) x = get acc x.
Proof.
  induction l as [|[k v] l IH]; simpl; intros acc H; [reflexivity|].
  inversion H as [|? ? Hk Hl]; subst; simpl in Hk.
  rewrite IH by assumption.
  unfold step; simpl; now apply get_set_other.
Qed.

(** In a comprehension that renames the keys, an entry is the one kept
    for its new name when no later entry takes the same name. *)
Lemma comprehension_last (l1 l2 : list (string * json)) (k : string) (v : json) :
  Forall (fun kv => f (fst kv) <> f k) l2 ->
  get (comprehension (fun _ => true) f (l1 ++ (k, v) :: l2)) (f k) = Some v.
Proof.
  intros H; unfold comprehension.
  rewrite fold_left_app; simpl.
  change (get (fold_left step l2 (step (fold_left step l1 []) (k, v))) (f k) = Some v).
  rewrite comprehension_skip by assumption.
  unfold step; simpl; apply get_set_same.
Qed.

End ZoneDetail.

Section LastWriter.
Import Dict DictFacts.

Variable p : string.

Lemma last_writer_new d k v : ~ In k (keys d) -> last_writer p (set d k v) k v.
Proof.
  intros H; exists d, []; split; [now apply set_notin | constructor].
Qed.

Lemma last_writer_set d k v k1 v1 :
  last_writer p d k v -> startswith k1 p = true -> k1 <> k ->
  last_writer p (set d k1 v1) k v.
Proof.
  intros (d1 & d2 & -> & Hall) Hp Hne.
  rewrite set_app.
  destruct (in_dec string_dec k1 (keys d1)) as [Hin|Hnin].
  - exists (set d1 k1 v1), d2; split; [reflexivity | assumption].
  - exists d1, (set d2 k1 v1); split.
    + simpl; destruct (String.eqb k k1) eqn:E; [|reflexivity].
      apply String.eqb_eq in E; congruence.
    + rewrite keys_set.
      destruct (in_dec string_dec k1 (keys d2)); [assumption|].
      apply Forall_app; split; [assumption | repeat constructor; assumption].
Qed.

Lemma last_writer_update l :
  forall d k v,
    last_writer p d k v ->
    Forall (fun x => startswith x p = true /\ x <> k) (keys l) ->
    last_writer p (update d l) k v.
Proof.
  induction l as [|[k1 v1] l IH]; simpl; intros d k v Hd Hl; [assumption|].
  inversion Hl as [|? ? [Hp Hne] Hl']; subst.
  apply IH; [|assumption].
  now apply last_writer_set.
Qed.

(** Merging a dictionary whose keys start with the prefix: an entry of
    it that is new to the target is followed by such keys only. *)
Lemma update_last_writer l :
  forall d k v,
    wf l ->
    Forall (fun x => startswith x p = true) (keys l) ->
    In (k, v) l ->
    ~ In k (keys d) ->
    last_writer p (update d l) k v.
Proof.
  induction l as [|[k1 v1] l IH]; simpl; intros d k v Hwf Hp Hin Hnin; [contradiction|].
  inversion Hwf as [|? ? Hk1 Hwf']; subst.
  inversion Hp as [|? ? Hp1 Hp']; subst.
  destruct (string_dec k1 k) as [->|Hne].
  - assert (v1 = v) as ->.
    { destruct Hin as [E|Hin]; [now inversion E|].
      exfalso; apply Hk1; exact (In_keys _ _ _ Hin). }
    apply last_writer_update; [now apply last_writer_new|].
    rewrite Forall_forall in Hp' |- *.
    intros x Hx; split; [auto|]. intros ->; contradiction.
  - apply IH; try assumption.
    + destruct Hin as [E|Hin]; [inversion E; contradiction | assumption].
    + rewrite In_keys_set; intros [E|H]; [congruence | contradiction].
Qed.

End LastWriter.

Section MoreDictFacts.
Import Dict DictFacts.
Context {V : Type}.
Implicit Types (d l : Dict.t V) (k : string) (v : V).

Lemma In_keys_update l :
  forall d x, In x (keys (update d l)) <-> In x (keys d) \/ In x (keys l).
Proof.
  unfold update.
  induction l as [|[k v] l IH]; intros d x; simpl; [tauto|].
  rewrite IH, In_keys_set; intuition congruence.
Qed.

Lemma In_set_other d k v k1 v1 : In (k, v) d -> k1 <> k -> In (k, v) (set d k1 v1).
Proof.
  induction d as [|[k' v'] d IH]; simpl; [tauto|].
  intros [E|H] Hne.
  - inversion E; subst.
    destruct (String.eqb k k1) eqn:E'; [|now left].
    apply String.eqb_eq in E'; congruence.
  - destruct (String.eqb k' k1); right; auto.
Qed.

Lemma In_update_other l :
  forall d k v, In (k, v) d -> ~ In k (keys l) -> In (k, v) (update d l).
Proof.
  induction l as [|[k1 v1] l IH]; simpl; intros d k v H Hn; [assumption|].
  unfold update in *; simpl; apply IH; [|tauto].
  apply In_set_other; [assumption | tauto].
Qed.

Lemma remove_notin d k0 : wf d -> ~ In k0 (keys (remove d k0)).
Proof.
  unfold wf; induction d as [|[k' v'] d IH]; simpl; intros H; [tauto|].
  inversion H as [|? ? Hk Hnd]; subst.
  destruct (String.eqb k' k0) eqn:E.
  - apply String.eqb_eq in E; now subst.
  - apply String.eqb_neq in E; simpl; intros [H1|H1]; [contradiction|].
    now apply IH.
Qed.

Lemma wf_split l1 l2 k v : wf (l1 ++ (k, v) :: l2) -> ~ In k (keys l2).
Proof.
  unfold wf, keys; rewrite map_app; simpl; intros H Hin.
  apply NoDup_remove_2 in H; apply H, in_or_app; now right.
Qed.
End MoreDictFacts.

Section ZoneDetailClaim.
Import Dict DictFacts.

Variable zoneid : nat.

Let p : string := zone_prefix_of zoneid.
Let strip_key : string -> string := remove_first p.

(** An entry of a dictionary is the one kept for its stripped name when
    no other key of the dictionary has the same stripped name. *)
Lemma comprehension_unique (d : Dict.t json) (k : string) (v : json) :
  wf d -> In (k, v) d ->
  (forall k', In k' (keys d) -> k' <> k -> strip_key k' <> strip_key k) ->
  get (comprehension (fun _ => true) strip_key d) (strip_key k) = Some v.
Proof.
  intros Hwf Hin Hother.
  destruct (in_split _ _ Hin) as (l1 & l2 & ->).
  apply comprehension_last.
  rewrite Forall_forall; intros [k' v'] Hk'; simpl.
  pose proof (In_keys _ _ _ Hk') as Hk2.
  apply Hother.
  - unfold keys; rewrite map_app; simpl; apply in_or_app; right; now right.
  - intros ->; exact (wf_split _ _ _ _ Hwf Hk2).
Qed.

Lemma prefixed_neq (s s' : string) : s <> s' -> (p ++ s)%string <> (p ++ s')%string.
Proof.
  intros Hne E; apply Hne.
  apply (f_equal (drop (String.length p))) in E.
  now rewrite !drop_app in E.
Qed.

Variables (m acts : Dict.t json).
Hypothesis wf_m : wf m.
Hypothesis activesettings :
  get m (p ++ "activesettings")%string = Some (JObj acts).

Let raw : Dict.t json :=
  remove (filter (fun kv => startswith (fst kv) p) m) (p ++ "activesettings")%string.
Let zone_data : Dict.t json := update (update [] acts) raw.

Lemma read_zone_data_mapping :
  read_zone_data (JObj m) zoneid
  = Ok (comprehension (fun _ => true) strip_key zone_data).
Proof.
  cbv beta iota zeta delta [read_zone_data items rbind].
  fold p.
  rewrite (comprehension_filter (fun key => startswith key p) m wf_m).
  unfold pop.
  rewrite (get_filter (fun key => startswith key p))
    by (unfold startswith; apply prefix_app).
  rewrite activesettings; reflexivity.
Qed.

Lemma wf_raw : wf raw.
Proof. apply wf_remove, wf_filter, wf_m. Qed.

(** The keys merged after the promotion are the prefixed keys of the
    payload other than [activesettings]. *)
Lemma raw_key (k : string) :
  In k (keys raw) ->
  exists s, k = (p ++ s)%string /\ s <> "activesettings" /\ In k (keys m).
Proof.
  intros Hk.
  pose proof (keys_remove_incl _ _ _ Hk) as Hk'.
  apply (keys_filter_incl (fun key => startswith key p)) in Hk'.
  destruct Hk' as [Hm Hp].
  exists (drop (String.length p) k); repeat split.
  - now apply prefix_split.
  - intros E.
    apply (remove_notin _ (p ++ "activesettings")%string
             (wf_filter (fun key => startswith key p) m wf_m)).
    fold raw. rewrite <- E, <- (prefix_split p k Hp). exact Hk.
  - exact Hm.
Qed.

Lemma raw_entry (s : string) (v : json) :
  s <> "activesettings" -> get m (p ++ s)%string = Some v -> In ((p ++ s)%string, v) raw.
Proof.
  intros Hs Hget.
  apply In_remove; [|now apply prefixed_neq].
  apply get_In.
  rewrite (get_filter (fun key => startswith key p))
    by (unfold startswith; apply prefix_app).
  exact Hget.
Qed.

Lemma sibling_kept (s : string) (v : json) :
  s <> "activesettings" ->
  get m (p ++ s)%string = Some v ->
  ~ In (p ++ s)%string (keys acts) ->
  get (comprehension (fun _ => true) strip_key zone_data) s = Some v.
Proof.
  intros Hs Hget Hnew.
  assert (Hlw : last_writer p zone_data (p ++ s)%string v).
  { apply update_last_writer.
    - exact wf_raw.
    - rewrite Forall_forall; intros k Hk.
      destruct (raw_key k Hk) as (s' & -> & _ & _).
      unfold startswith; apply prefix_app.
    - now apply raw_entry.
    - rewrite In_keys_update; simpl; tauto. }
  destruct Hlw as (d1 & d2 & -> & Hall).
  replace s with (strip_key (p ++ s)%string) at 2
    by (unfold strip_key; apply remove_first_app).
  apply comprehension_last.
  rewrite Forall_forall in Hall |- *.
  intros [k' v'] Hk'; simpl.
  destruct (Hall k' (In_keys _ _ _ Hk')) as [Hp Hne].
  intros E; apply Hne.
  apply (remove_first_inj p); [assumption | unfold startswith; apply prefix_app | exact E].
Qed.

Lemma promoted_kept (a : string) (v : json) :
  wf acts ->
  get acts a = Some v ->
  (forall a', In a' (keys acts) -> a' <> a -> strip_key a' <> strip_key a) ->
  (forall s, s <> "activesettings" -> In (p ++ s)%string (keys m) -> s <> strip_key a) ->
  get (comprehension (fun _ => true) strip_key zone_data) (strip_key a) = Some v.
Proof.
  intros Hwf Hget Hacts Hsib.
  assert (Hstrip : forall k, In k (keys raw) -> strip_key k <> strip_key a).
  { intros k Hk; destruct (raw_key k Hk) as (s & -> & Hs & Hm).
    unfold strip_key at 1; rewrite remove_first_app; now apply Hsib. }
  assert (Hupd : update [] acts = acts).
  { apply (update_app_new acts []); [exact Hwf | intros x _ []]. }
  apply comprehension_unique.
  - unfold zone_data; apply wf_update, wf_update; constructor.
  - unfold zone_data; rewrite Hupd.
    apply In_update_other; [now apply get_In|].
    intros Hin; now apply (Hstrip a Hin).
  - intros k' Hk' Hne; unfold zone_data in Hk'.
    rewrite Hupd, In_keys_update in Hk'.
    destruct Hk' as [Hk'|Hk']; [now apply Hacts | now apply Hstrip].
Qed.

End ZoneDetailClaim.

Lemma comprehension_keys (f : string -> string) (l : list (string * json)) (n : string) :
  In n (Dict.keys (Dict.comprehension (fun _ => true) f l)) ->
  exists k, In k (Dict.keys l) /\ n = f k.
Proof.
  unfold Dict.comprehension.
  assert (G : forall (acc : Dict.t json),
             In n (Dict.keys
                     (fold_left
                        (fun acc kv =>
                           if (fun _ : string => true) (fst kv)
                           then Dict.set acc (f (fst kv)) (snd kv) else acc) l acc)) ->
             In n (Dict.keys acc) \/ exists k, In k (Dict.keys l) /\ n = f k).
  { induction l as [|[k v] l IH]; simpl; intros acc H; [now left|].
    destruct (IH _ H) as [H1|(k' & Hk' & ->)].
    - apply DictFacts.In_keys_set in H1; destruct H1 as [->|H1]; [|now left].
      right; exists k; auto.
    - right; exists k'; auto. }
  intros H; destruct (G [] H) as [[]|H']; exact H'.
Qed.

Lemma wf_of_nodupb {V : Type} (d : Dict.t V) :
  (forallb (fun k => Nat.eqb (count_occ string_dec (Dict.keys d) k) 1) (Dict.keys d)) = true ->
  Dict.wf d.
Proof.
  intros H; unfold Dict.wf.
  apply (NoDup_count_occ' string_dec); intros x Hx.
  rewrite forallb_forall in H; apply Nat.eqb_eq, H, Hx.
Qed.

(** The zone detail at the colliding payload: the promoted key [mode] holds
    ["heat"] in [activesettings], the sibling [iz2_z1_mode] holds ["cool"],
    and the final mapping holds ["cool"] under [mode], not the
    [activesettings] value. *)
Lemma read_zone_activesettings_overwritten :
  subscript colliding_payload "iz2_z1_activesettings" = Ok (JObj [("mode", JStr "heat")]) /\
  subscript colliding_payload "iz2_z1_mode" = Ok (JStr "cool") /\
  read_zone_data colliding_payload 1 = Ok [("mode", JStr "cool")] /\
  ~ (exists response,
        read_zone_data colliding_payload 1 = Ok response /\
        Dict.get response "mode" = Some (JStr "heat")).
Proof.
  repeat split; try reflexivity.
  intros (response & Hrun & Hget).
  change (read_zone_data colliding_payload 1) with (Ok [("mode", JStr "cool")]) in Hrun.
  inversion Hrun; subst response.
  simpl in Hget; discriminate.
Qed.

(** C1 (as amended): for a telemetry payload whose [activesettings] entry of
    the zone is a mapping, the zone detail is computed, and (1) every
    sibling key with the zone's prefix appears under its stripped name with
    the sibling's own value, also when a promoted [activesettings] key has
    the same stripped name (the sibling is merged later and overwrites it),
    provided the full sibling key is not itself a key of [activesettings];
    (2) a promoted key appears under its stripped name with its
    [activesettings] value when no other promoted key and no sibling has
    this stripped name; (3) every final key is the stripped name of a
    promoted key or of a sibling. *)
Theorem read_zone_promotes_then_merges (zoneid : nat) (m acts : Dict.t json) :
  Dict.wf m ->
  Dict.wf acts ->
  Dict.get m (zone_prefix_of zoneid ++ "activesettings")%string = Some (JObj acts) ->
  exists response,
    read_zone_data (JObj m) zoneid = Ok response /\
    (forall s v,
        s <> "activesettings" ->
        Dict.get m (zone_prefix_of zoneid ++ s)%string = Some v ->
        ~ In (zone_prefix_of zoneid ++ s)%string (Dict.keys acts) ->
        Dict.get response s = Some v) /\
    (forall a v,
        Dict.get acts a = Some v ->
        (forall a', In a' (Dict.keys acts) -> a' <> a ->
                    remove_first (zone_prefix_of zoneid) a'
                    <> remove_first (zone_prefix_of zoneid) a) ->
        (forall s, s <> "activesettings" ->
                   In (zone_prefix_of zoneid ++ s)%string (Dict.keys m) ->
                   s <> remove_first (zone_prefix_of zoneid) a) ->
        Dict.get response (remove_first (zone_prefix_of zoneid) a) = Some v) /\
    (forall n,
        In n (Dict.keys response) ->
        (exists a, In a (Dict.keys acts) /\ n = remove_first (zone_prefix_of zoneid) a) \/
        (exists s, s <> "activesettings" /\
                   In (zone_prefix_of zoneid ++ s)%string (Dict.keys m) /\ n = s)).
Proof.
  intros Hm Hacts Hget.
  eexists; split; [exact (read_zone_data_mapping zoneid m acts Hm Hget)|].
  split; [|split].
  - intros s v; exact (sibling_kept zoneid m acts Hm s v).
  - intros a v Ha; exact (promoted_kept zoneid m acts Hm a v Hacts Ha).
  - intros n Hn.
    apply comprehension_keys in Hn; destruct Hn as (k & Hk & ->).
    apply In_keys_update in Hk; destruct Hk as [Hk|Hk].
    + apply In_keys_update in Hk; destruct Hk as [[]|Hk].
      left; exists k; auto.
    + destruct (raw_key zoneid m Hm k Hk) as (s & -> & Hs & Hin).
      right; exists s; rewrite remove_first_app; auto.
Qed.

Lemma read_zone_promotes_then_merges_witness :
  exists response,
    read_zone_data colliding_payload 1 = Ok response /\
    Dict.get response "mode" = Some (JStr "cool").
Proof.
  destruct (read_zone_promotes_then_merges 1
              [("iz2_z1_activesettings", JObj [("mode", JStr "heat")]);
               ("iz2_z1_mode", JStr "cool")]
              [("mode", JStr "heat")])
    as (response & Hrun & Hsibling & _).
  - apply wf_of_nodupb; reflexivity.
  - apply wf_of_nodupb; reflexivity.
  - reflexivity.
  - exists response; split; [exact Hrun|].
    apply (Hsibling "mode" (JStr "cool")).
    + discriminate.
    + reflexivity.
    + simpl; intros [H|[]]; discriminate.
Defined.

(** ** Facts about computations *)

Lemma bind_lift_ok {A B : Type} (a : A) (k : A -> M B) : bind (lift (Ok a)) k = k a.
Proof. unfold bind, lift; destruct (k a); reflexivity. Qed.

Lemma bind_lift_raise {A B : Type} (e : exn) (k : A -> M B) :
  bind (lift (Raise e)) k = (Raise e, []).
Proof. reflexivity. Qed.

Lemma bind_ok {A B : Type} (m : M A) (k : A -> M B) (a : A) (t : list event) :
  m = (Ok a, t) -> bind m k = (fst (k a), t ++ snd (k a)).
Proof. intros ->; unfold bind; destruct (k a); reflexivity. Qed.

Lemma bind_raise {A B : Type} (m : M A) (k : A -> M B) (e : exn) (t : list event) :
  m = (Raise e, t) -> bind m k = (Raise e, t).
Proof. intros ->; reflexivity. Qed.

(** A loop whose body always completes and appends to the list it is
    given appends, in the order of the iteration, what each round appends,
    and logs what each round logs. *)
Lemma for_each_append {X R : Type} (f : X -> list R) (lg : X -> list event)
    (body : X -> list R -> M (list R)) (xs : list X) :
  (forall x, In x xs -> forall s, body x s = (Ok (s ++ f x), lg x)) ->
  forall s, for_each xs body s = (Ok (s ++ flat_map f xs), flat_map lg xs).
Proof.
  induction xs as [|x xs IH]; intros Hbody s; simpl.
  - now rewrite app_nil_r.
  - rewrite (bind_ok _ _ _ _ (Hbody x (or_introl eq_refl) s)).
    rewrite IH by (intros y Hy; apply Hbody; now right).
    simpl; now rewrite <- app_assoc.
Qed.

(** ** Facts about the projections *)

Lemma shaped_locations (ok : json -> bool) (d : json) :
  shaped ok d = true ->
  subscript d "locations" = Ok (JArr (locations_of d)) /\
  forall location, In location (locations_of d) ->
    exists lm, location = JObj lm /\
    subscript location "gateways" = Ok (JArr (gateways_of location)) /\
    forall gateway, In gateway (gateways_of location) -> ok gateway = true.
Proof.
  unfold shaped, locations_of.
  destruct (subscript d "locations") as [[| | | |locations|]|] eqn:E; try discriminate.
  intros H; split; [reflexivity|].
  rewrite forallb_forall in H.
  simpl; intros location Hin; specialize (H location Hin).
  unfold gateways_of.
  destruct location as [| | | | |lm]; try discriminate.
  exists lm; split; [reflexivity|].
  destruct (subscript (JObj lm) "gateways") as [[| | | |gateways|]|]; try discriminate.
  split; [reflexivity|].
  simpl; now rewrite forallb_forall in H.
Qed.

Lemma gateway_body (lm gm : Dict.t json) (gateways : list gateway_record) :
  try_except
    (l <- lift (get_method (JObj lm) "description") ;;
     g <- lift (subscript (JObj gm) "gwid") ;;
     n <- lift (get_method (JObj gm) "description") ;;
     ret (gateways ++ [mk_gateway_record l g n]))
    (fun e =>
       match e with
       | KeyError => Some (log ERROR couldnt_get_gwid ;; ret gateways)
       | _ => None
       end)
  = (Ok (gateways ++ emitted_gateway (JObj lm) (JObj gm)), skipped_gateway (JObj gm)).
Proof.
  unfold emitted_gateway, skipped_gateway, description_of; simpl.
  destruct (Dict.get lm "description"), (Dict.get gm "gwid"), (Dict.get gm "description");
    simpl; rewrite ?app_nil_r; reflexivity.
Qed.

Lemma zone_body {I : Interpreter} (lm gm : Dict.t json) (key : string) (zone_name : json)
    (thermostats : list zone_record) :
  (if is_not_None zone_name then
     try_except
       (l <- lift (get_method (JObj lm) "description") ;;
        g <- lift (subscript (JObj gm) "gwid") ;;
        n <- lift (get_method (JObj gm) "description") ;;
        z <- lift (py_int (str_tail key)) ;;
        ret (thermostats ++ [mk_zone_record l g n z zone_name]))
       (fun e =>
          match e with
          | ValueError => Some (log ERROR couldnt_convert_zone_key ;; ret thermostats)
          | KeyError => Some (log ERROR couldnt_get_gwid ;; ret thermostats)
          | _ => None
          end)
   else ret thermostats)
  = (Ok (thermostats ++ emitted_zone (JObj lm) (JObj gm) (key, zone_name)),
     skipped_zone (JObj gm) (key, zone_name)).
Proof.
  assert (Hint : forall s, py_int s = Raise ValueError \/ exists z, py_int s = Ok z).
  { intros s; unfold py_int; destruct (int_of_str s); [right; eauto | now left]. }
  unfold emitted_zone, skipped_zone, description_of; simpl fst; simpl snd.
  destruct (is_not_None zone_name); [|simpl; now rewrite app_nil_r].
  simpl get_method; simpl subscript.
  destruct (Hint (str_tail key)) as [Hz|[z Hz]]; rewrite Hz;
    destruct (Dict.get lm "description"), (Dict.get gm "gwid"), (Dict.get gm "description");
    simpl; rewrite ?app_nil_r; reflexivity.
Qed.

(** On login data of the expected shape the gateway enumeration completes
    with the expected records and log. *)
Lemma awl_enumerate_gateways_shaped (d : json) :
  gateways_shaped d = true ->
  awl_enumerate_gateways d = (Ok (expected_gateways d), expected_gateway_log d).
Proof.
  intros H; apply shaped_locations in H; destruct H as [Hlocs Hloc].
  unfold awl_enumerate_gateways, expected_gateways, expected_gateway_log.
  rewrite Hlocs; simpl rbind; rewrite bind_lift_ok.
  apply (for_each_append
           (fun location => flat_map (emitted_gateway location) (gateways_of location))
           (fun location => flat_map skipped_gateway (gateways_of location))).
  intros location Hin s.
  destruct (Hloc location Hin) as (lm & -> & Hgws & Hgw).
  rewrite Hgws; simpl rbind; rewrite bind_lift_ok.
  apply (for_each_append (emitted_gateway (JObj lm)) skipped_gateway).
  intros gateway Hg gateways.
  specialize (Hgw gateway Hg).
  destruct gateway as [| | | | |gm]; try discriminate.
  apply gateway_body.
Qed.

(** On login data of the expected shape the zone enumeration completes
    with the expected records and log. *)
Lemma awl_enumerate_zones_shaped {I : Interpreter} (d : json) :
  zones_shaped d = true ->
  awl_enumerate_zones d = (Ok (expected_zones d), expected_zone_log d).
Proof.
  intros H; apply shaped_locations in H; destruct H as [Hlocs Hloc].
  unfold awl_enumerate_zones, expected_zones, expected_zone_log.
  rewrite Hlocs; simpl rbind; rewrite bind_lift_ok.
  apply (for_each_append
           (fun location =>
              flat_map
                (fun gateway =>
                   flat_map (emitted_zone (I := I) location gateway) (tstat_names_of gateway))
                (gateways_of location))
           (fun location =>
              flat_map
                (fun gateway => flat_map (skipped_zone (I := I) gateway) (tstat_names_of gateway))
                (gateways_of location))).
  intros location Hin s.
  destruct (Hloc location Hin) as (lm & -> & Hgws & Hgw).
  rewrite Hgws; simpl rbind; rewrite bind_lift_ok.
  apply (for_each_append
           (fun gateway =>
              flat_map (emitted_zone (I := I) (JObj lm) gateway) (tstat_names_of gateway))
           (fun gateway => flat_map (skipped_zone (I := I) gateway) (tstat_names_of gateway))).
  intros gateway Hg thermostats.
  specialize (Hgw gateway Hg); cbv beta in Hgw.
  unfold tstat_names_of.
  destruct gateway as [| | | | |gm]; try discriminate.
  destruct (subscript (JObj gm) "tstat_names") as [[| | | | |names]|]; try discriminate.
  simpl rbind; rewrite bind_lift_ok.
  apply (for_each_append (emitted_zone (I := I) (JObj lm) (JObj gm))
           (skipped_zone (I := I) (JObj gm))).
  intros [key zone_name] _ ts.
  apply zone_body.
Qed.

Lemma for_each_invariant {X S : Type} (P : S -> Prop) (body : X -> S -> M S)
    (xs : list X) :
  (forall x s s' t, In x xs -> P s -> body x s = (Ok s', t) -> P s') ->
  forall s s' t, P s -> for_each xs body s = (Ok s', t) -> P s'.
Proof.
  induction xs as [|x xs IH]; simpl; intros Hbody s s' t Hs Hrun.
  - inversion Hrun; subst; assumption.
  - unfold bind in Hrun.
    destruct (body x s) as [[s1|e] t1] eqn:E; [|discriminate].
    destruct (for_each xs body s1) as [r t2] eqn:E2.
    inversion Hrun; subst.
    apply (IH (fun y a b c Hy => Hbody y a b c (or_intror Hy)) s1 s' t2); [|assumption].
    apply (Hbody x s s1 t1); auto.
Qed.

Lemma bind_lift_inv {A B : Type} (r : result A) (k : A -> M B) (b : B) (t : list event) :
  bind (lift r) k = (Ok b, t) -> exists a, r = Ok a /\ k a = (Ok b, t).
Proof.
  destruct r as [a|e]; [|discriminate].
  rewrite bind_lift_ok; eauto.
Qed.

Lemma subscript_then_ok {A : Type} (v : json) (key : string) (f : json -> result A) (a : A) :
  rbind (subscript v key) f = Ok a -> exists m, v = JObj m.
Proof. destruct v; simpl; try discriminate; eauto. Qed.

Lemma emitted_zone_from {I : Interpreter} (location gateway : json) (key : string)
    (zone_name : json)
    (zone : zone_record) :
  In zone (emitted_zone location gateway (key, zone_name)) ->
  z_zone_name zone = zone_name /\ zone_name <> JNull /\
  py_int (str_tail key) = Ok (z_zoneid zone) /\
  subscript gateway "gwid" = Ok (z_gwid zone).
Proof.
  unfold emitted_zone; simpl fst; simpl snd; intros H.
  destruct (subscript gateway "gwid") as [g|e], (py_int (str_tail key)) as [z|e'];
    destruct zone_name; simpl in H; try contradiction;
    destruct H as [<-|[]]; simpl; repeat split; discriminate.
Qed.

Lemma awl_enumerate_zones_from {I : Interpreter} (d : json) (zones : list zone_record)
    (log : list event) :
  awl_enumerate_zones d = (Ok zones, log) -> Forall (zone_from d) zones.
Proof.
  unfold awl_enumerate_zones; intros Hrun.
  apply bind_lift_inv in Hrun; destruct Hrun as (locations & Hlocs & Hrun).
  assert (Hlocs' : locations_of d = locations) by (unfold locations_of; now rewrite Hlocs).
  revert Hrun; apply for_each_invariant; [|constructor].
  intros location s s' t Hloc Hs Hrun.
  apply bind_lift_inv in Hrun; destruct Hrun as (gateways & Hgws & Hrun).
  assert (Hgws' : gateways_of location = gateways) by (unfold gateways_of; now rewrite Hgws).
  destruct (subscript_then_ok _ _ _ _ Hgws) as (lm & ->).
  revert Hrun; apply for_each_invariant; [|assumption].
  clear s s' t Hs; intros gateway s s' t Hgw Hs Hrun.
  apply bind_lift_inv in Hrun; destruct Hrun as (names & Hnames & Hrun).
  assert (Hnames' : tstat_names_of gateway = names)
    by (unfold tstat_names_of; now rewrite Hnames).
  destruct (subscript_then_ok _ _ _ _ Hnames) as (gm & ->).
  revert Hrun; apply for_each_invariant; [|assumption].
  clear s s' t Hs; intros [key zone_name] s s' t Hentry Hs Hrun.
  rewrite zone_body in Hrun; inversion Hrun; subst s' t.
  apply Forall_app; split; [assumption|].
  rewrite Forall_forall; intros zone Hzone.
  apply emitted_zone_from in Hzone; destruct Hzone as (Hname & Hnn & Hint & Hgwid).
  split; [now rewrite Hname|].
  exists (JObj lm), (JObj gm), key; rewrite Hlocs', Hgws', Hnames', Hname; auto.
Qed.

(** *** Gateway enumeration *)

(** A gateway whose [gwid] is an explicit null is emitted, with a null
    [gwid]. *)
Lemma null_gwid_gateway_emitted :
  awl_enumerate_gateways null_gwid_login = (Ok [mk_gateway_record JNull JNull JNull], []) /\
  ~ (forall records log,
        awl_enumerate_gateways null_gwid_login = (Ok records, log) ->
        Forall (fun record => g_gwid record <> JNull) records).
Proof.
  split; [reflexivity|].
  intros H.
  specialize (H [mk_gateway_record JNull JNull JNull] [] eq_refl).
  inversion H as [|? ? Hnull _]; subst; now apply Hnull.
Qed.

(** C3 (as amended): for login data with a list of locations, each a
    mapping with a list of gateways that are mappings, the gateway
    enumeration completes; its records follow the order of the locations and,
    within a location, the order of its gateways; a gateway without the key
    [gwid] gives no record and one error line, and the gateways after it are
    still enumerated; every other gateway gives one record, whose [gwid] is
    the value stored under the key [gwid] of its gateway (not null unless the
    gateway stores an explicit null there). *)
Theorem awl_enumerate_gateways_ordered (d : json) :
  gateways_shaped d = true ->
  awl_enumerate_gateways d
  = (Ok (flat_map
           (fun location => flat_map (emitted_gateway location) (gateways_of location))
           (locations_of d)),
     flat_map (fun location => flat_map skipped_gateway (gateways_of location))
       (locations_of d)) /\
  (forall location gateway,
      subscript gateway "gwid" = Raise KeyError ->
      emitted_gateway location gateway = [] /\
      skipped_gateway gateway = [Log ERROR (Text couldnt_get_gwid)]) /\
  (forall location gateway g,
      subscript gateway "gwid" = Ok g ->
      emitted_gateway location gateway
      = [mk_gateway_record (description_of location) g (description_of gateway)] /\
      skipped_gateway gateway = []) /\
  (forall records log,
      awl_enumerate_gateways d = (Ok records, log) ->
      Forall
        (fun record =>
           exists location gateway,
             In location (locations_of d) /\ In gateway (gateways_of location) /\
             subscript gateway "gwid" = Ok (g_gwid record))
        records).
Proof.
  intros Hshape.
  pose proof (awl_enumerate_gateways_shaped d Hshape) as Hrun.
  split; [exact Hrun|].
  split; [|split].
  - intros location gateway H; unfold emitted_gateway, skipped_gateway; now rewrite H.
  - intros location gateway g H; unfold emitted_gateway, skipped_gateway; now rewrite H.
  - intros records log Hrun'.
    rewrite Hrun in Hrun'; inversion Hrun'; subst records log.
    unfold expected_gateways.
    rewrite Forall_forall; intros record Hin.
    apply in_flat_map in Hin; destruct Hin as (location & Hloc & Hin).
    apply in_flat_map in Hin; destruct Hin as (gateway & Hgw & Hin).
    exists location, gateway; repeat split; try assumption.
    unfold emitted_gateway in Hin.
    destruct (subscript gateway "gwid"); [|contradiction].
    destruct Hin as [<-|[]]; reflexivity.
Qed.

Lemma awl_enumerate_gateways_ordered_witness :
  fst (awl_enumerate_gateways two_locations)
  = Ok [mk_gateway_record (JStr "Home") (JStr "G1") (JStr "Main");
        mk_gateway_record JNull (JStr "G2") JNull].
Proof.
  destruct (awl_enumerate_gateways_ordered two_locations) as (Hrun & _).
  - reflexivity.
  - rewrite Hrun; reflexivity.
Defined.

(** *** Zone enumeration *)

(** A gateway without [tstat_names] and a location without [gateways] make
    the route [/zones] fail with [KeyError]. *)
Lemma list_thermostats_fails :
  (forall I : Interpreter,
      list_thermostats (I := I) no_tstat_names_login = (Raise KeyError, []) /\
      list_thermostats (I := I) no_gateways_login = (Raise KeyError, [])) /\
  ~ (forall (I : Interpreter) d,
        exists zones log, list_thermostats (I := I) d = (Ok zones, log)).
Proof.
  split; [intros I; split; reflexivity|].
  intros H; destruct (H evaluation no_tstat_names_login) as (zones & log & Hrun).
  discriminate.
Qed.

(** C2 (as amended): for login data with a list of locations, each a
    mapping with a list of gateways, each a mapping with a mapping of zone
    names, the route [/zones] does not fail: it returns the zone records in
    order (none if there are none), and what it logs are the error lines of
    the entries it skipped, those of a gateway without [gwid] and those
    whose key does not read as an integer. *)
Theorem list_thermostats_completes {I : Interpreter} (d : json) :
  zones_shaped d = true ->
  list_thermostats d = (Ok (expected_zones d), expected_zone_log d) /\
  Forall
    (fun ev =>
       ev = Log ERROR (Text couldnt_get_gwid) \/
       ev = Log ERROR (Text couldnt_convert_zone_key))
    (expected_zone_log d).
Proof.
  intros Hshape; split.
  - exact (awl_enumerate_zones_shaped d Hshape).
  - unfold expected_zone_log.
    rewrite Forall_forall; intros ev Hin.
    apply in_flat_map in Hin; destruct Hin as (location & _ & Hin).
    apply in_flat_map in Hin; destruct Hin as (gateway & _ & Hin).
    apply in_flat_map in Hin; destruct Hin as ([key zone_name] & _ & Hin).
    unfold skipped_zone in Hin; simpl fst in Hin; simpl snd in Hin.
    destruct (is_not_None zone_name); [|contradiction].
    destruct (subscript gateway "gwid"), (py_int (str_tail key));
      simpl in Hin; intuition.
Qed.

Lemma list_thermostats_completes_witness :
  list_thermostats (I := evaluation) two_locations
  = (Ok [mk_zone_record (JStr "Home") (JStr "G1") (JStr "Main") 1 (JStr "Upstairs");
         mk_zone_record (JStr "Home") (JStr "G1") (JStr "Main") 3 (JStr "Den");
         mk_zone_record JNull (JStr "G2") JNull 1 (JStr "Cabin")],
     [Log ERROR (Text couldnt_convert_zone_key);
      Log ERROR (Text couldnt_get_gwid)]).
Proof.
  destruct (list_thermostats_completes (I := evaluation) two_locations) as (Hrun & _).
  - reflexivity.
  - rewrite Hrun; reflexivity.
Defined.

(** C9: every zone record the enumeration emits has a zone name that is not
    null and the zone id read from its key without the first character, the
    key being one of the zone names of a gateway of the login data.  On
    login data of the expected shape the enumeration emits, in order, the
    records of the entries it keeps: an entry with a null name gives no
    record and no log line; an entry with a name whose key does not read as
    an integer gives no record and one error line; the entries after it are
    still enumerated. *)
Theorem awl_enumerate_zones_invariant {I : Interpreter} (d : json) :
  (forall zones log,
      awl_enumerate_zones d = (Ok zones, log) -> Forall (zone_from d) zones) /\
  (zones_shaped d = true ->
   awl_enumerate_zones d
   = (Ok (flat_map
            (fun location =>
               flat_map
                 (fun gateway =>
                    flat_map (emitted_zone location gateway) (tstat_names_of gateway))
                 (gateways_of location))
            (locations_of d)),
      flat_map
        (fun location =>
           flat_map
             (fun gateway => flat_map (skipped_zone gateway) (tstat_names_of gateway))
             (gateways_of location))
        (locations_of d))) /\
  (forall location gateway key,
      emitted_zone location gateway (key, JNull) = [] /\
      skipped_zone gateway (key, JNull) = []) /\
  (forall location gateway key zone_name g,
      zone_name <> JNull ->
      subscript gateway "gwid" = Ok g ->
      py_int (str_tail key) = Raise ValueError ->
      emitted_zone location gateway (key, zone_name) = [] /\
      skipped_zone gateway (key, zone_name) = [Log ERROR (Text couldnt_convert_zone_key)]) /\
  (forall location gateway key zone_name g z,
      zone_name <> JNull ->
      subscript gateway "gwid" = Ok g ->
      py_int (str_tail key) = Ok z ->
      emitted_zone location gateway (key, zone_name)
      = [mk_zone_record (description_of location) g (description_of gateway) z zone_name]).
Proof.
  split; [intros zones log; apply awl_enumerate_zones_from|].
  split; [apply awl_enumerate_zones_shaped|].
  split; [intros; split; reflexivity|].
  split.
  - intros location gateway key zone_name g Hnn Hg Hint.
    unfold emitted_zone, skipped_zone; simpl fst; simpl snd.
    rewrite Hg, Hint; destruct zone_name; try contradiction; split; reflexivity.
  - intros location gateway key zone_name g z Hnn Hg Hint.
    unfold emitted_zone; simpl fst; simpl snd.
    rewrite Hg, Hint; destruct zone_name; try contradiction; reflexivity.
Qed.

Lemma awl_enumerate_zones_invariant_witness :
  Forall (zone_from (I := evaluation) two_locations)
    [mk_zone_record (JStr "Home") (JStr "G1") (JStr "Main") 1 (JStr "Upstairs");
     mk_zone_record (JStr "Home") (JStr "G1") (JStr "Main") 3 (JStr "Den");
     mk_zone_record JNull (JStr "G2") JNull 1 (JStr "Cabin")].
Proof.
  destruct (awl_enumerate_zones_invariant (I := evaluation) two_locations) as (Hfrom & _).
  apply (Hfrom _ [Log ERROR (Text couldnt_convert_zone_key);
                  Log ERROR (Text couldnt_get_gwid)]).
  reflexivity.
Defined.

(** *** Single-zone lookup *)

Lemma bind_ok_inv {A B : Type} (m : M A) (k : A -> M B) (b : B) (t : list event) :
  bind m k = (Ok b, t) ->
  exists a t1 t2, m = (Ok a, t1) /\ k a = (Ok b, t2) /\ t = t1 ++ t2.
Proof.
  destruct m as [[a|e] t1]; simpl; [|discriminate].
  destruct (k a) as [r t2] eqn:E; intros H; inversion H; subst.
  exists a, t1, t2; auto.
Qed.

Lemma json_eq_str_true (v : json) (s : string) : json_eq_str v s = true <-> v = JStr s.
Proof.
  destruct v; simpl; try (split; [discriminate | intros H; discriminate H]).
  rewrite String.eqb_eq; split; [now intros -> | now intros [= ->]].
Qed.

Lemma zone_matches_true (gwid : string) (zoneid : nat) (zone : zone_record) :
  zone_matches gwid zoneid zone = true <-> zone_requested gwid zoneid zone.
Proof.
  unfold zone_matches, zone_requested.
  now rewrite andb_true_iff, json_eq_str_true, Z.eqb_eq.
Qed.

Lemma zone_matches_false (gwid : string) (zoneid : nat) (zone : zone_record) :
  ~ zone_requested gwid zoneid zone -> zone_matches gwid zoneid zone = false.
Proof.
  intros H; destruct (zone_matches gwid zoneid zone) eqn:E; [|reflexivity].
  apply zone_matches_true in E; contradiction.
Qed.

Lemma filter_none {A : Type} (p : A -> bool) (l : list A) :
  (forall x, In x l -> p x = false) -> filter p l = [].
Proof.
  induction l as [|x l IH]; simpl; intros H; [reflexivity|].
  rewrite (H x (or_introl eq_refl)); apply IH; intros y Hy; apply H; now right.
Qed.

Lemma two_or_more {A B : Type} (l : list A) (a : B) (b : A -> B) (c : B) :
  (2 <= List.length l)%nat ->
  match l with
  | [] => a
  | [z] => b z
  | _ => c
  end = c.
Proof. destruct l as [|x [|y l]]; simpl; intros H; [lia | lia | reflexivity]. Qed.

(** The lookup of one zone, by the zones that match. *)
Lemma view_gateway_zone_cases {I : Interpreter} (d : json) (gwid : string) (zoneid : nat)
    (zones : list zone_record) (log : list event) :
  awl_enumerate_zones d = (Ok zones, log) ->
  view_gateway_zone d gwid zoneid
  = (match filter (zone_matches gwid zoneid) zones with
     | [] => Raise (HTTPException 404)
     | [zone] => Ok zone
     | _ => Raise (HTTPException 500)
     end, log).
Proof.
  intros Hrun; unfold view_gateway_zone.
  rewrite (bind_ok _ _ _ _ Hrun); cbv zeta.
  destruct (filter (zone_matches gwid zoneid) zones) as [|z1 [|z2 rest]]; simpl;
    now rewrite app_nil_r.
Qed.

Lemma view_gateway_zone_ok_inv {I : Interpreter} (d : json) (gwid : string) (zoneid : nat)
    (zone : zone_record) (log : list event) :
  view_gateway_zone d gwid zoneid = (Ok zone, log) ->
  exists zones,
    awl_enumerate_zones d = (Ok zones, log) /\
    filter (zone_matches gwid zoneid) zones = [zone].
Proof.
  intros Hrun.
  destruct (awl_enumerate_zones d) as [[zones|e] t] eqn:E.
  - rewrite (view_gateway_zone_cases d gwid zoneid zones t E) in Hrun.
    exists zones.
    destruct (filter (zone_matches gwid zoneid) zones) as [|z1 [|z2 rest]];
      inversion Hrun; subst; auto.
  - unfold view_gateway_zone in Hrun; rewrite E in Hrun; discriminate.
Qed.


(** C7: once the zones are enumerated, the lookup of one zone answers by
    the enumerated zones that have the requested gateway id and zone id:
    when there is none it fails with 404; when there is exactly one it
    returns this zone; when there are two or more it fails with 500, and
    returns none of them.  A zone it returns is an enumerated zone with the
    requested gateway id and zone id. *)
Theorem view_gateway_zone_by_count {I : Interpreter} (d : json) (gwid : string)
    (zoneid : nat) (zones : list zone_record) (log : list event) :
  awl_enumerate_zones d = (Ok zones, log) ->
  ((forall zone, In zone zones -> ~ zone_requested gwid zoneid zone) ->
   view_gateway_zone d gwid zoneid = (Raise (HTTPException 404), log)) /\
  (forall before zone after,
      zones = before ++ zone :: after ->
      zone_requested gwid zoneid zone ->
      (forall other, In other (before ++ after) -> ~ zone_requested gwid zoneid other) ->
      view_gateway_zone d gwid zoneid = (Ok zone, log)) /\
  (forall l1 zone1 l2 zone2 l3,
      zones = l1 ++ zone1 :: l2 ++ zone2 :: l3 ->
      zone_requested gwid zoneid zone1 ->
      zone_requested gwid zoneid zone2 ->
      view_gateway_zone d gwid zoneid = (Raise (HTTPException 500), log)) /\
  (forall zone log',
      view_gateway_zone d gwid zoneid = (Ok zone, log') ->
      In zone zones /\ zone_requested gwid zoneid zone).
Proof.
  intros Hrun.
  rewrite (view_gateway_zone_cases d gwid zoneid zones log Hrun).
  split; [|split; [|split]].
  - intros Hnone.
    rewrite filter_none; [reflexivity|].
    intros zone Hin; apply zone_matches_false, Hnone, Hin.
  - intros before zone after -> Hzone Hothers.
    rewrite filter_app; simpl.
    rewrite (proj2 (zone_matches_true gwid zoneid zone) Hzone).
    rewrite !filter_none; [reflexivity | |];
      intros other Hin; apply zone_matches_false, Hothers, in_or_app; auto.
  - intros l1 zone1 l2 zone2 l3 -> H1 H2.
    rewrite two_or_more; [reflexivity|].
    rewrite filter_app; simpl.
    rewrite (proj2 (zone_matches_true gwid zoneid zone1) H1).
    rewrite filter_app; simpl.
    rewrite (proj2 (zone_matches_true gwid zoneid zone2) H2).
    rewrite length_app; simpl; rewrite length_app; simpl; lia.
  - intros zone log' Hok.
    assert (Hin : In zone (filter (zone_matches gwid zoneid) zones)).
    { destruct (filter (zone_matches gwid zoneid) zones) as [|z1 [|z2 rest]];
        inversion Hok; subst; now left. }
    apply filter_In in Hin; destruct Hin as [Hin Hm].
    split; [assumption | now apply zone_matches_true].
Qed.

Lemma view_gateway_zone_by_count_witness :
  view_gateway_zone (I := evaluation) duplicated_zone_login "G1" 1
  = (Raise (HTTPException 500), []) /\
  view_gateway_zone (I := evaluation) two_locations "G1" 3
  = (Ok (mk_zone_record (JStr "Home") (JStr "G1") (JStr "Main") 3 (JStr "Den")),
     [Log ERROR (Text couldnt_convert_zone_key); Log ERROR (Text couldnt_get_gwid)]) /\
  view_gateway_zone (I := evaluation) two_locations "G9" 3
  = (Raise (HTTPException 404),
     [Log ERROR (Text couldnt_convert_zone_key); Log ERROR (Text couldnt_get_gwid)]).
Proof.
  split; [|split].
  - refine (proj1 (proj2 (proj2
              (view_gateway_zone_by_count (I := evaluation) duplicated_zone_login "G1" 1
                 _ _ eq_refl)))
              [] (mk_zone_record JNull (JStr "G1") JNull 1 (JStr "Upstairs"))
              [] (mk_zone_record JNull (JStr "G1") JNull 1 (JStr "Again")) []
              eq_refl _ _); split; reflexivity.
  - refine (proj1 (proj2
              (view_gateway_zone_by_count (I := evaluation) two_locations "G1" 3
                 _ _ eq_refl))
              [mk_zone_record (JStr "Home") (JStr "G1") (JStr "Main") 1 (JStr "Upstairs")]
              (mk_zone_record (JStr "Home") (JStr "G1") (JStr "Main") 3 (JStr "Den"))
              [mk_zone_record JNull (JStr "G2") JNull 1 (JStr "Cabin")]
              eq_refl _ _).
    + split; reflexivity.
    + simpl; intros other [<-|[<-|[]]] [Hg Hz]; discriminate.
  - refine (proj1
              (view_gateway_zone_by_count (I := evaluation) two_locations "G9" 3
                 _ _ eq_refl) _).
    simpl; intros zone [<-|[<-|[<-|[]]]] [Hg Hz]; discriminate.
Defined.

(** ** Facts about the supervision task *)

(** C8: when the wait for the closure ends with a connection error and the
    logout that follows raises a login error, the handler logs that the
    logout failed and goes on: it sleeps one second, announces the
    reconnection and runs the session establishment, whose outcome is the
    handler's. *)
Theorem logout_login_error_is_ignored (establish_awl_session : M unit) :
  awl_reconnection_handler
    (mk_connection (Raise AWLConnectionError) (Raise AWLLoginError))
    establish_awl_session
  = (fst establish_awl_session,
     [WaitClosed;
      Log INFO (Text "Logging out of AWL");
      Logout;
      Log INFO (Text "AWL logout failed; ignoring");
      Sleep 1;
      Log INFO (Text "Reconnecting to AWL")]
     ++ snd establish_awl_session).
Proof.
  unfold awl_reconnection_handler.
  destruct establish_awl_session as [r t]; reflexivity.
Qed.

(** C10: when the wait for the closure ends with a connection error and the
    logout that follows raises anything but a login error, a connection
    error in particular, the handler ends with this exception right after
    the logout: it does not sleep, does not announce a reconnection and does
    not run the session establishment. *)
Theorem logout_other_error_propagates (establish_awl_session : M unit) (e : exn) :
  e <> AWLLoginError ->
  awl_reconnection_handler
    (mk_connection (Raise AWLConnectionError) (Raise e))
    establish_awl_session
  = (Raise e, [WaitClosed; Log INFO (Text "Logging out of AWL"); Logout]).
Proof.
  intros He; unfold awl_reconnection_handler.
  destruct e; try reflexivity; contradiction.
Qed.

Lemma logout_other_error_propagates_witness :
  awl_reconnection_handler
    (mk_connection (Raise AWLConnectionError) (Raise AWLConnectionError))
    (emit (Sleep 60))
  = (Raise AWLConnectionError, [WaitClosed; Log INFO (Text "Logging out of AWL"); Logout]).
Proof.
  apply (logout_other_error_propagates (emit (Sleep 60)) AWLConnectionError).
  discriminate.
Defined.

(** ** Facts about the backoff handler *)

Lemma from_mapping_absent {I : Interpreter} (mapping : list (string * config_value)) :
  forall (cfg : config) (key : string),
    isupper key = false ->
    Dict.get cfg key = None ->
    Dict.get (from_mapping cfg mapping) key = None.
Proof.
  unfold from_mapping, Dict.update.
  induction mapping as [|[k v] mapping IH]; simpl; intros cfg key Hkey Hcfg; [assumption|].
  destruct (isupper k) eqn:Hk; simpl; [|now apply IH].
  apply IH; [assumption|].
  rewrite DictFacts.get_set_other; [assumption|].
  intros ->; congruence.
Qed.

(** No configuration the module builds holds the key the handler reads. *)
Lemma app_config_lower_key_absent {I : Interpreter} (defaults : config)
    (env instance_path : string)
    (config_file : option (result (list (string * config_value)))) (cfg : config) :
  Dict.get defaults "websockets_warn_after_disconnected" = None ->
  app_config defaults env instance_path config_file = Ok cfg ->
  Dict.get cfg "websockets_warn_after_disconnected" = None.
Proof.
  intros H; unfold app_config, from_envvar.
  destruct config_file as [[settings|e]|]; try discriminate.
  intros [= <-].
  apply from_mapping_absent; [reflexivity|].
  apply from_mapping_absent; [reflexivity|].
  destruct (String.eqb env "development" || String.eqb env "testing");
    [apply from_mapping_absent; [reflexivity | assumption]|].
  destruct (String.eqb env "production");
    [apply from_mapping_absent; [reflexivity | assumption] | assumption].
Qed.

(** C4 (the code against the claim): on every configuration the module
    builds, the backoff handler raises [KeyError] and logs nothing, whatever
    the elapsed time and the threshold: it reads the key
    [websockets_warn_after_disconnected] while the threshold is stored under
    [WEBSOCKETS_WARN_AFTER_DISCONNECTED], and only [ValueError] is caught. *)
Theorem backoff_handler_raises_key_error {I : Interpreter}
    (float : config_value -> result Q) (defaults : config) (env instance_path : string)
    (config_file : option (result (list (string * config_value)))) (cfg : config)
    (d : details) :
  Dict.get defaults "websockets_warn_after_disconnected" = None ->
  app_config defaults env instance_path config_file = Ok cfg ->
  backoff_handler float cfg d = (Raise KeyError, []).
Proof.
  intros H Hcfg; unfold backoff_handler, config_subscript.
  rewrite (app_config_lower_key_absent defaults env instance_path config_file cfg H Hcfg).
  reflexivity.
Qed.

Lemma backoff_handler_raises_key_error_witness :
  exists cfg,
    app_config (I := evaluation) [] "development" "/srv/instance"
      (Some (Ok [("WATERFURNACE_USER", CStr "user");
                 ("WATERFURNACE_PASSWORD", CStr "secret")]))
    = Ok cfg /\
    config_subscript cfg "WEBSOCKETS_WARN_AFTER_DISCONNECTED" = Ok (CInt 0) /\
    backoff_handler (fun _ => Ok 0%Q) cfg (mk_details 1 5%Q 1%Q) = (Raise KeyError, []).
Proof.
  eexists; split; [reflexivity|]. split; [reflexivity|].
  apply (backoff_handler_raises_key_error (I := evaluation) (fun _ => Ok 0%Q)
           [] "development" "/srv/instance"
           (Some (Ok [("WATERFURNACE_USER", CStr "user");
                      ("WATERFURNACE_PASSWORD", CStr "secret")])));
    reflexivity.
Defined.

(** ** Facts about the cached gateway read *)

Lemma Qltb_lt (a b : Q) : Qltb a b = true <-> (a < b)%Q.
Proof.
  unfold Qltb; rewrite negb_true_iff; split; intros H.
  - apply Qnot_le_lt; intros Hle.
    apply Qle_bool_iff in Hle; congruence.
  - destruct (Qle_bool b a) eqn:E; [|reflexivity].
    apply Qle_bool_iff in E; exfalso; exact (Qlt_not_le _ _ H E).
Qed.

Lemma Qltb_ge (a b : Q) : Qltb a b = false <-> (b <= a)%Q.
Proof.
  unfold Qltb; rewrite negb_false_iff; apply Qle_bool_iff.
Qed.

(** An entry that has expired stays expired. *)
Lemma cache_miss_later (cache : Dict.t cache_entry) (now now' : Q) (key : string) (ttl : Q) :
  (now <= now')%Q ->
  cache_hit cache now key ttl = None ->
  cache_hit cache now' key ttl = None.
Proof.
  unfold cache_hit; intros Hle.
  destruct (Dict.get cache key) as [entry|]; [|reflexivity].
  destruct (Qltb now (insertedAt entry + ttl)) eqn:E; [discriminate|].
  intros _; apply Qltb_ge in E.
  assert (E' : Qltb now' (insertedAt entry + ttl) = false)
    by (apply Qltb_ge; eapply Qle_trans; eassumption).
  now rewrite E'.
Qed.

Section CachedRead.

Context {U : Type}.
Variable read : string -> U -> result json * U.

(** A miss reads the upstream once, and stores what a successful read
    returns. *)
Lemma awl_read_gateway_miss (cache : Dict.t cache_entry) (u : U) (reads : list string)
    (now : Q) (gwid : string) :
  cache_hit cache now gwid 10 = None ->
  awl_read_gateway read now gwid (cache, (u, reads))
  = (fst (read gwid u),
     (match fst (read gwid u) with
      | Ok v => Dict.set cache gwid (mk_cache_entry v now)
      | Raise _ => cache
      end,
      (snd (read gwid u), reads ++ [gwid]))).
Proof.
  intros Hmiss; unfold awl_read_gateway, get_or_compute, connection_read.
  rewrite Hmiss.
  destruct (read gwid u) as [[v|e] u']; reflexivity.
Qed.

(** C5: after a call at time [T] that missed, read the upstream and stored
    the value [v], a call for the same key at [T + eps] with [eps < 10]
    returns [v] and leaves the cache, the upstream and the list of upstream
    reads as they are; a call at [T + 10 + eps] reads the upstream again
    and, when the read returns a value, stores it with the time of this
    call. *)
Theorem awl_read_gateway_fresh_then_expired (cache : Dict.t cache_entry) (u u1 : U)
    (reads : list string) (T : Q) (gwid : string) (v : json) :
  cache_hit cache T gwid 10 = None ->
  read gwid u = (Ok v, u1) ->
  let st1 := (Dict.set cache gwid (mk_cache_entry v T), (u1, reads ++ [gwid])) in
  awl_read_gateway read T gwid (cache, (u, reads)) = (Ok v, st1) /\
  (forall eps : Q,
      (0 <= eps)%Q -> (eps < 10)%Q ->
      awl_read_gateway read (T + eps)%Q gwid st1 = (Ok v, st1)) /\
  (forall eps : Q,
      (0 <= eps)%Q ->
      awl_read_gateway read (T + 10 + eps)%Q gwid st1
      = (fst (read gwid u1),
         (match fst (read gwid u1) with
          | Ok v' => Dict.set (fst st1) gwid (mk_cache_entry v' (T + 10 + eps)%Q)
          | Raise _ => fst st1
          end,
          (snd (read gwid u1), (reads ++ [gwid]) ++ [gwid])))).
Proof.
  intros Hmiss Hread st1; split; [|split].
  - rewrite (awl_read_gateway_miss cache u reads T gwid Hmiss), Hread; reflexivity.
  - intros eps H0 H10; unfold st1, awl_read_gateway, get_or_compute, cache_hit.
    rewrite (DictFacts.get_set_same cache gwid); simpl insertedAt; simpl stored_value.
    assert (E : Qltb (T + eps) (T + 10) = true)
      by (apply Qltb_lt; apply Qplus_lt_r; exact H10).
    now rewrite E.
  - intros eps H0; unfold st1.
    apply awl_read_gateway_miss.
    unfold cache_hit; simpl fst; rewrite (DictFacts.get_set_same cache gwid); simpl insertedAt.
    assert (E : Qltb (T + 10 + eps) (T + 10) = false).
    { apply Qltb_ge.
      rewrite <- (Qplus_0_r (T + 10)) at 1.
      apply Qplus_le_r; exact H0. }
    now rewrite E.
Qed.

(** C6: when the upstream read of a miss fails, the exception is the
    caller's, the cache is as it was, so no entry is stored for the key, and
    the next call for the same key reads the upstream again. *)
Theorem awl_read_gateway_failure_not_cached (cache : Dict.t cache_entry) (u u1 : U)
    (reads : list string) (now : Q) (gwid : string) (e : exn) :
  cache_hit cache now gwid 10 = None ->
  read gwid u = (Raise e, u1) ->
  awl_read_gateway read now gwid (cache, (u, reads))
  = (Raise e, (cache, (u1, reads ++ [gwid]))) /\
  (forall now' : Q,
      (now <= now')%Q ->
      awl_read_gateway read now' gwid (cache, (u1, reads ++ [gwid]))
      = (fst (read gwid u1),
         (match fst (read gwid u1) with
          | Ok v => Dict.set cache gwid (mk_cache_entry v now')
          | Raise _ => cache
          end,
          (snd (read gwid u1), (reads ++ [gwid]) ++ [gwid])))).
Proof.
  intros Hmiss Hread; split.
  - rewrite (awl_read_gateway_miss cache u reads now gwid Hmiss), Hread; reflexivity.
  - intros now' Hle.
    apply awl_read_gateway_miss.
    exact (cache_miss_later cache now now' gwid 10 Hle Hmiss).
Qed.

End CachedRead.

Lemma awl_read_gateway_fresh_then_expired_witness :
  awl_read_gateway counting_read (100 + 3)%Q "G1"
    ([("G1", mk_cache_entry (JStr "1") 100%Q)], (2, ["G1"]))
  = (Ok (JStr "1"), ([("G1", mk_cache_entry (JStr "1") 100%Q)], (2, ["G1"]))) /\
  fst (awl_read_gateway counting_read (100 + 10 + 1)%Q "G1"
         ([("G1", mk_cache_entry (JStr "1") 100%Q)], (2, ["G1"])))
  = Ok (JStr "2").
Proof.
  destruct (awl_read_gateway_fresh_then_expired counting_read [] 1 2 [] 100%Q "G1"
              (JStr "1") eq_refl eq_refl) as (_ & Hfresh & Hstale).
  split.
  - apply (Hfresh 3%Q); [discriminate | reflexivity].
  - assert (H1 : (0 <= 1)%Q) by discriminate.
    exact (f_equal fst (Hstale 1%Q H1)).
Defined.

Lemma awl_read_gateway_failure_not_cached_witness :
  awl_read_gateway counting_read 100%Q "G1" ([], (0, []))
  = (Raise AWLConnectionError, ([], (1, ["G1"]))) /\
  awl_read_gateway counting_read 100%Q "G1" ([], (1, ["G1"]))
  = (Ok (JStr "1"), ([("G1", mk_cache_entry (JStr "1") 100%Q)], (2, ["G1"; "G1"]))).
Proof.
  destruct (awl_read_gateway_failure_not_cached counting_read [] 0 1 [] 100%Q "G1"
              AWLConnectionError eq_refl eq_refl) as (Hfail & Hnext).
  split.
  - exact Hfail.
  - assert (Hle : (100 <= 100)%Q) by discriminate.
    exact (Hnext 100%Q Hle).
Defined.

(** ** Zone prefixes *)

Lemma all_digits_string_of_uint (d : Decimal.uint) :
  all_digits (NilEmpty.string_of_uint d) = true.
Proof. induction d; simpl; auto. Qed.


Lemma str_of_nat_inj (n n' : nat) : str_of_nat n = str_of_nat n' -> n = n'.
Proof.
  unfold str_of_nat; intros H.
  apply DecimalNat.Unsigned.to_uint_inj.
  apply (f_equal NilEmpty.uint_of_string) in H.
  rewrite !NilEmpty.usu in H; now inversion H.
Qed.

Lemma underscore_not_digit (s : string) : all_digits (String "_" s) = false.
Proof. reflexivity. Qed.

Lemma append_associative (a b c : string) :
  ((a ++ b) ++ c)%string = (a ++ (b ++ c))%string.
Proof. induction a as [|x a IH]; simpl; [reflexivity | now rewrite IH]. Qed.

Lemma prefix_cons (a b : ascii) (s1 s2 : string) :
  String.prefix (String a s1) (String b s2)
  = if ascii_dec a b then String.prefix s1 s2 else false.
Proof. reflexivity. Qed.

Lemma digits_then_underscore (ds : string) :
  forall ds' s,
    all_digits ds = true -> all_digits ds' = true ->
    String.prefix (ds ++ "_")%string (ds' ++ "_" ++ s)%string = true ->
    ds = ds'.
Proof.
  induction ds as [|c ds IH]; intros ds' s Hd Hd' Hp.
  - destruct ds' as [|c' ds']; [reflexivity|].
    cbn [append] in Hp; rewrite prefix_cons in Hp.
    destruct (ascii_dec "_" c') as [<-|]; [|discriminate].
    rewrite underscore_not_digit in Hd'; discriminate.
  - destruct ds' as [|c' ds']; cbn [append] in Hp; rewrite prefix_cons in Hp.
    + destruct (ascii_dec c "_") as [->|]; [|discriminate].
      rewrite underscore_not_digit in Hd; discriminate.
    + destruct (ascii_dec c c') as [<-|]; [|discriminate].
      unfold all_digits in Hd, Hd'; cbn [list_ascii_of_string forallb] in Hd, Hd'.
      apply andb_true_iff in Hd, Hd'.
      f_equal; apply (IH ds' s); tauto.
Qed.

(** The keys of one zone do not start with the prefix of another zone. *)
Lemma other_zone_prefix (zoneid zoneid' : nat) (s : string) :
  zoneid <> zoneid' ->
  startswith (zone_prefix_of zoneid' ++ s)%string (zone_prefix_of zoneid) = false.
Proof.
  intros Hne; unfold startswith, zone_prefix_of.
  destruct (String.prefix _ _) eqn:E; [|reflexivity].
  exfalso; apply Hne, str_of_nat_inj.
  apply (digits_then_underscore (str_of_nat zoneid) (str_of_nat zoneid') s).
  - apply all_digits_string_of_uint.
  - apply all_digits_string_of_uint.
  - cbn [append] in E.
    repeat (rewrite prefix_cons in E;
            match type of E with
            | (if ascii_dec ?a ?a then _ else _) = _ =>
                destruct (ascii_dec a a); [|contradiction]
            end).
    now rewrite append_associative in E.
Qed.

(** ** More on the zone detail *)

Lemma comprehension_map (f : string -> string) (l : list (string * json)) :
  NoDup (map f (Dict.keys l)) ->
  Dict.comprehension (fun _ => true) f l = map (fun kv => (f (fst kv), snd kv)) l.
Proof.
  unfold Dict.comprehension.
  assert (G : forall (acc : Dict.t json),
             NoDup (map f (Dict.keys l)) ->
             (forall x, In x (map f (Dict.keys l)) -> ~ In x (Dict.keys acc)) ->
             fold_left
               (fun acc kv =>
                  if (fun _ : string => true) (fst kv)
                  then Dict.set acc (f (fst kv)) (snd kv) else acc) l acc
             = acc ++ map (fun kv => (f (fst kv), snd kv)) l).
  { induction l as [|[k v] l IH]; simpl; intros acc Hnd Hdisj.
    - now rewrite app_nil_r.
    - inversion Hnd as [|? ? Hk Hnd']; subst.
      rewrite DictFacts.set_notin by (apply Hdisj; now left).
      rewrite IH; [now rewrite <- app_assoc | assumption |].
      intros x Hx; unfold Dict.keys; rewrite map_app, in_app_iff; simpl.
      intros [H|[<-|[]]]; [|contradiction].
      apply (Hdisj x); auto. }
  intros H; apply (G [] H); intros x _ [].
Qed.

Lemma remove_first_prefixed (p k : string) :
  startswith k p = true -> remove_first p k = drop (String.length p) k.
Proof. unfold startswith; intros H; now rewrite remove_first_unfold, H. Qed.

Lemma stripped_keys_distinct (p : string) (l : list (string * json)) :
  Dict.wf l ->
  (forall k, In k (Dict.keys l) -> startswith k p = true) ->
  NoDup (map (remove_first p) (Dict.keys l)).
Proof.
  unfold Dict.wf; induction l as [|[k v] l IH]; simpl; intros Hwf Hp; [constructor|].
  inversion Hwf as [|? ? Hk Hwf']; subst.
  constructor; [|apply IH; auto].
  intros Hin; apply in_map_iff in Hin; destruct Hin as (k' & E & Hk').
  apply Hk.
  rewrite <- (remove_first_inj p k' k); auto.
Qed.

Lemma filter_idempotent {A : Type} (p : A -> bool) (l : list A) :
  filter p (filter p l) = filter p l.
Proof.
  induction l as [|x l IH]; simpl; [reflexivity|].
  destruct (p x) eqn:E; simpl; [rewrite E, IH; reflexivity | exact IH].
Qed.

(** The zone detail is computed from the prefixed keys alone. *)
Lemma read_zone_data_filter (zoneid : nat) (m : Dict.t json) :
  Dict.wf m ->
  read_zone_data (JObj m) zoneid
  = read_zone_data
      (JObj (filter (fun kv => startswith (fst kv) (zone_prefix_of zoneid)) m)) zoneid.
Proof.
  intros Hwf.
  cbv beta iota zeta delta [read_zone_data items rbind].
  rewrite (DictFacts.comprehension_filter
             (fun key => startswith key (zone_prefix_of zoneid)) m Hwf).
  rewrite (DictFacts.comprehension_filter
             (fun key => startswith key (zone_prefix_of zoneid)) _
             (DictFacts.wf_filter (fun key => startswith key (zone_prefix_of zoneid)) m Hwf)).
  rewrite filter_idempotent; reflexivity.
Qed.

(** X2: without an [activesettings] entry for the zone, the zone detail is
    the prefixed entries of the payload, in the order of the payload, each
    under its key without the prefix; it is empty when no key has the
    prefix. *)
Theorem read_zone_data_without_activesettings (zoneid : nat) (m : Dict.t json) :
  Dict.wf m ->
  Dict.get m (zone_prefix_of zoneid ++ "activesettings")%string = None ->
  read_zone_data (JObj m) zoneid
  = Ok (map (fun kv => (drop (String.length (zone_prefix_of zoneid)) (fst kv), snd kv))
          (filter (fun kv => startswith (fst kv) (zone_prefix_of zoneid)) m)).
Proof.
  intros Hwf Hnone.
  cbv beta iota zeta delta [read_zone_data items rbind].
  set (p := zone_prefix_of zoneid) in *.
  rewrite (DictFacts.comprehension_filter (fun key => startswith key p) m Hwf).
  unfold Dict.pop.
  rewrite (DictFacts.get_filter (fun key => startswith key p))
    by (unfold startswith; apply prefix_app).
  rewrite Hnone; cbv beta iota zeta delta [promoted_items].
  set (raw := filter (fun kv => startswith (fst kv) p) m).
  assert (Hraw : Dict.wf raw) by (apply DictFacts.wf_filter, Hwf).
  assert (Hp : forall k, In k (Dict.keys raw) -> startswith k p = true).
  { intros k Hk.
    apply (DictFacts.keys_filter_incl (fun key => startswith key p)) in Hk; tauto. }
  change (Dict.update [] []) with (@nil (string * json)).
  rewrite (DictFacts.update_app_new raw [] Hraw) by (intros x _ []).
  simpl app.
  rewrite comprehension_map by (apply stripped_keys_distinct; assumption).
  f_equal; apply map_ext_in; intros [k v] Hin; simpl.
  f_equal; apply remove_first_prefixed, Hp.
  exact (DictFacts.In_keys _ _ _ Hin).
Qed.

Lemma read_zone_data_without_activesettings_witness :
  read_zone_data
    (JObj [("iz2_z1_fan", JStr "on"); ("awlid", JStr "G1"); ("iz2_z1_mode", JStr "cool")]) 1
  = Ok [("fan", JStr "on"); ("mode", JStr "cool")].
Proof.
  apply (read_zone_data_without_activesettings 1
           [("iz2_z1_fan", JStr "on"); ("awlid", JStr "G1"); ("iz2_z1_mode", JStr "cool")]).
  - apply wf_of_nodupb; reflexivity.
  - reflexivity.
Defined.

(** X3: the zone detail fails with [AttributeError] when the gateway data
    are not a mapping, and with [TypeError] when the [activesettings] entry
    of the zone is null, a boolean or a number: such an entry is not taken
    for an absent one. *)
Theorem read_zone_data_failures (zoneid : nat) :
  (forall v, is_mapping v = false -> read_zone_data v zoneid = Raise AttributeError) /\
  (forall (m : Dict.t json) v,
      Dict.wf m ->
      Dict.get m (zone_prefix_of zoneid ++ "activesettings")%string = Some v ->
      v = JNull \/ (exists b, v = JBool b) \/ (exists q, v = JNum q) ->
      read_zone_data (JObj m) zoneid = Raise TypeError).
Proof.
  split.
  - intros v Hv; destruct v; try reflexivity; discriminate.
  - intros m v Hwf Hget Hv.
    cbv beta iota zeta delta [read_zone_data items rbind].
    set (p := zone_prefix_of zoneid) in *.
    rewrite (DictFacts.comprehension_filter (fun key => startswith key p) m Hwf).
    unfold Dict.pop.
    rewrite (DictFacts.get_filter (fun key => startswith key p))
      by (unfold startswith; apply prefix_app).
    rewrite Hget.
    destruct Hv as [->|[[b ->]|[q ->]]]; reflexivity.
Qed.

Lemma read_zone_data_failures_witness :
  read_zone_data (JObj [("iz2_z1_activesettings", JNull); ("iz2_z1_fan", JStr "on")]) 1
  = Raise TypeError.
Proof.
  apply (proj2 (read_zone_data_failures 1)
           [("iz2_z1_activesettings", JNull); ("iz2_z1_fan", JStr "on")] JNull).
  - apply wf_of_nodupb; reflexivity.
  - reflexivity.
  - now left.
Defined.

(** X4: entries of other zones do not change the detail of a zone: a key
    with the prefix of another zone id does not start with the prefix of
    this one, the zone ids 1 and 10 included. *)
Theorem read_zone_data_ignores_other_zones (zoneid : nat) (m others : Dict.t json) :
  Dict.wf (m ++ others) ->
  (forall k, In k (Dict.keys others) ->
             exists zoneid' s,
               zoneid' <> zoneid /\ k = (zone_prefix_of zoneid' ++ s)%string) ->
  read_zone_data (JObj (m ++ others)) zoneid = read_zone_data (JObj m) zoneid.
Proof.
  intros Hwf Hothers.
  assert (Hm : Dict.wf m).
  { unfold Dict.wf, Dict.keys in *; rewrite map_app in Hwf.
    exact (NoDup_app_remove_r _ _ Hwf). }
  rewrite (read_zone_data_filter zoneid (m ++ others) Hwf).
  rewrite (read_zone_data_filter zoneid m Hm).
  rewrite filter_app.
  replace (filter (fun kv => startswith (fst kv) (zone_prefix_of zoneid)) others)
    with (@nil (string * json)); [now rewrite app_nil_r|].
  symmetry; clear Hwf Hm.
  induction others as [|[k v] others IH]; simpl; [reflexivity|].
  destruct (Hothers k (or_introl eq_refl)) as (zoneid' & s & Hne & ->).
  rewrite other_zone_prefix by auto.
  apply IH; intros k' Hk'; apply Hothers; now right.
Qed.

Lemma read_zone_data_ignores_other_zones_witness :
  read_zone_data
    (JObj ([("iz2_z1_fan", JStr "on")] ++ [("iz2_z10_fan", JStr "auto")])) 1
  = read_zone_data (JObj [("iz2_z1_fan", JStr "on")]) 1.
Proof.
  apply (read_zone_data_ignores_other_zones 1
           [("iz2_z1_fan", JStr "on")] [("iz2_z10_fan", JStr "auto")]).
  - apply wf_of_nodupb; reflexivity.
  - simpl; intros k [<-|[]].
    exists 10, "fan"; split; [discriminate | reflexivity].
Defined.

(** ** More on the enumerations *)

Lemma length_flat_map_sum {X A B C : Type} (f : X -> list A) (g : X -> list B)
    (h : X -> list C) (l : list X) :
  (forall x, In x l -> List.length (f x) + List.length (g x) = List.length (h x)) ->
  List.length (flat_map f l) + List.length (flat_map g l) = List.length (flat_map h l).
Proof.
  induction l as [|x l IH]; simpl; intros H; [reflexivity|].
  rewrite !length_app.
  specialize (IH (fun y Hy => H y (or_intror Hy))).
  specialize (H x (or_introl eq_refl)); lia.
Qed.

Lemma flat_map_id {X : Type} (l : list X) : flat_map (fun x => [x]) l = l.
Proof. induction l as [|x l IH]; simpl; [reflexivity | now rewrite IH]. Qed.

Lemma flat_map_nested {X Y Z : Type} (f : Y -> list Z) (g : X -> list Y) (l : list X) :
  flat_map f (flat_map g l) = flat_map (fun x => flat_map f (g x)) l.
Proof.
  induction l as [|x l IH]; simpl; [reflexivity|].
  now rewrite flat_map_app, IH.
Qed.

Lemma flat_map_filter {X : Type} (p : X -> bool) (l : list X) :
  flat_map (fun x => if p x then [x] else []) l = filter p l.
Proof.
  induction l as [|x l IH]; simpl; [reflexivity|].
  rewrite IH; destruct (p x); reflexivity.
Qed.

Lemma entry_accounted_for {I : Interpreter} (location gateway : json) (entry : string * json) :
  List.length (emitted_zone location gateway entry)
  + List.length (skipped_zone gateway entry)
  = List.length (if is_not_None (snd entry) then [entry] else []).
Proof.
  unfold emitted_zone, skipped_zone.
  destruct (is_not_None (snd entry)); [|reflexivity].
  destruct (subscript gateway "gwid"), (py_int (str_tail (fst entry))); reflexivity.
Qed.

Lemma shaped_weaken (ok ok' : json -> bool) (d : json) :
  (forall gateway, ok gateway = true -> ok' gateway = true) ->
  shaped ok d = true -> shaped ok' d = true.
Proof.
  intros Hok; unfold shaped.
  destruct (subscript d "locations") as [[| | | |locations|]|]; try discriminate.
  rewrite !forallb_forall; intros H location Hin; specialize (H location Hin).
  destruct (subscript location "gateways") as [[| | | |gateways|]|]; try discriminate.
  rewrite forallb_forall in H |- *; auto.
Qed.

Lemma zones_shaped_gateways_shaped (d : json) :
  zones_shaped d = true -> gateways_shaped d = true.
Proof.
  apply shaped_weaken; intros [| | | | |gm]; simpl; try discriminate; reflexivity.
Qed.

(** X5: on login data with a list of locations, each a mapping with a list
    of gateways that are mappings, every gateway is accounted for: the
    number of records and the number of log lines of the gateway enumeration
    add up to the number of gateways. *)
Theorem awl_enumerate_gateways_accounts_for_all (d : json) :
  gateways_shaped d = true ->
  exists records log,
    awl_enumerate_gateways d = (Ok records, log) /\
    List.length records + List.length log = List.length (all_gateways d).
Proof.
  intros Hshape.
  exists (expected_gateways d), (expected_gateway_log d); split.
  - exact (awl_enumerate_gateways_shaped d Hshape).
  - unfold expected_gateways, expected_gateway_log, all_gateways.
    apply length_flat_map_sum; intros location _.
    rewrite <- (flat_map_id (gateways_of location)) at 3.
    apply length_flat_map_sum; intros gateway _.
    unfold emitted_gateway, skipped_gateway.
    destruct (subscript gateway "gwid"); reflexivity.
Qed.

Lemma awl_enumerate_gateways_accounts_for_all_witness :
  exists records log,
    awl_enumerate_gateways two_locations = (Ok records, log) /\
    List.length records + List.length log = 3.
Proof.
  exact (awl_enumerate_gateways_accounts_for_all two_locations eq_refl).
Defined.

(** X6: on login data of the shape the zone enumeration iterates over, every
    entry with a zone name is accounted for: the number of zone records and
    the number of log lines add up to the number of entries whose name is
    not null; the entries with a null name leave no trace. *)
Theorem awl_enumerate_zones_accounts_for_named {I : Interpreter} (d : json) :
  zones_shaped d = true ->
  exists zones log,
    awl_enumerate_zones d = (Ok zones, log) /\
    List.length zones + List.length log = List.length (named_entries d).
Proof.
  intros Hshape.
  exists (expected_zones d), (expected_zone_log d); split.
  - exact (awl_enumerate_zones_shaped d Hshape).
  - unfold expected_zones, expected_zone_log, named_entries, all_gateways.
    rewrite flat_map_nested.
    apply length_flat_map_sum; intros location _.
    apply length_flat_map_sum; intros gateway _.
    rewrite <- flat_map_filter.
    apply length_flat_map_sum; intros entry _.
    apply entry_accounted_for.
Qed.

Lemma awl_enumerate_zones_accounts_for_named_witness :
  exists zones log,
    awl_enumerate_zones (I := evaluation) two_locations = (Ok zones, log) /\
    List.length zones + List.length log = 5.
Proof.
  exact (awl_enumerate_zones_accounts_for_named (I := evaluation) two_locations eq_refl).
Defined.

(** X7: on login data of the shape the zone enumeration iterates over, every
    zone record belongs to a gateway the gateway enumeration emits: its
    location, gateway id and system name are those of a gateway record. *)
Theorem zones_belong_to_enumerated_gateways {I : Interpreter} (d : json) :
  zones_shaped d = true ->
  exists gateways glog zones zlog,
    awl_enumerate_gateways d = (Ok gateways, glog) /\
    awl_enumerate_zones d = (Ok zones, zlog) /\
    forall zone,
      In zone zones ->
      In (mk_gateway_record (z_location zone) (z_gwid zone) (z_system_name zone)) gateways.
Proof.
  intros Hshape.
  exists (expected_gateways d), (expected_gateway_log d),
         (expected_zones d), (expected_zone_log d).
  split; [exact (awl_enumerate_gateways_shaped d (zones_shaped_gateways_shaped d Hshape))|].
  split; [exact (awl_enumerate_zones_shaped d Hshape)|].
  unfold expected_zones, expected_gateways; intros zone Hin.
  apply in_flat_map in Hin; destruct Hin as (location & Hloc & Hin).
  apply in_flat_map in Hin; destruct Hin as (gateway & Hgw & Hin).
  apply in_flat_map in Hin; destruct Hin as ([key zone_name] & _ & Hin).
  apply in_flat_map; exists location; split; [assumption|].
  apply in_flat_map; exists gateway; split; [assumption|].
  unfold emitted_zone in Hin; simpl fst in Hin; simpl snd in Hin.
  unfold emitted_gateway.
  destruct (is_not_None zone_name); [|contradiction].
  destruct (subscript gateway "gwid") as [g|]; [|contradiction].
  destruct (py_int (str_tail key)); [|contradiction].
  destruct Hin as [<-|[]]; now left.
Qed.

Lemma zones_belong_to_enumerated_gateways_witness :
  exists gateways glog zones zlog,
    awl_enumerate_gateways two_locations = (Ok gateways, glog) /\
    awl_enumerate_zones (I := evaluation) two_locations = (Ok zones, zlog) /\
    forall zone,
      In zone zones ->
      In (mk_gateway_record (z_location zone) (z_gwid zone) (z_system_name zone)) gateways.
Proof.
  exact (zones_belong_to_enumerated_gateways (I := evaluation) two_locations eq_refl).
Defined.

(** ** More on the zone routes *)

(** X8: once the zones are enumerated, the zones of a gateway are the
    enumerated zones whose gateway id is the requested string, in the order
    of the enumeration, and all the zones for the wildcard; a gateway id
    that matches nothing gives the empty list, not a failure. *)
Theorem list_gateway_zones_selects {I : Interpreter} (d : json) (gwid : string)
    (zones : list zone_record) (log : list event) :
  awl_enumerate_zones d = (Ok zones, log) ->
  exists selected,
    list_gateway_zones d gwid = (Ok selected, log) /\
    (gwid = "*" -> selected = zones) /\
    (gwid <> "*" ->
     selected = filter (fun zone => json_eq_str (z_gwid zone) gwid) zones /\
     forall zone, In zone selected <-> In zone zones /\ z_gwid zone = JStr gwid).
Proof.
  intros Hrun; unfold list_gateway_zones, list_thermostats.
  destruct (String.eqb gwid "*") eqn:E.
  - apply String.eqb_eq in E; exists zones; split; [assumption|].
    split; [reflexivity | intros H; contradiction].
  - apply String.eqb_neq in E.
    exists (filter (fun zone => json_eq_str (z_gwid zone) gwid) zones); split.
    + rewrite (bind_ok _ _ _ _ Hrun); simpl; now rewrite app_nil_r.
    + split; [intros H; contradiction|].
      intros _; split; [reflexivity|].
      intros zone; now rewrite filter_In, json_eq_str_true.
Qed.

Lemma list_gateway_zones_selects_witness :
  list_gateway_zones (I := evaluation) two_locations "G2"
  = (Ok [mk_zone_record JNull (JStr "G2") JNull 1 (JStr "Cabin")],
     [Log ERROR (Text couldnt_convert_zone_key); Log ERROR (Text couldnt_get_gwid)]) /\
  list_gateway_zones (I := evaluation) two_locations "G9"
  = (Ok [], [Log ERROR (Text couldnt_convert_zone_key); Log ERROR (Text couldnt_get_gwid)]).
Proof.
  split.
  - destruct (list_gateway_zones_selects (I := evaluation) two_locations "G2" _ _ eq_refl)
      as (selected & Hrun & _ & Hsel).
    destruct Hsel as [-> _]; [discriminate|]. exact Hrun.
  - destruct (list_gateway_zones_selects (I := evaluation) two_locations "G9" _ _ eq_refl)
      as (selected & Hrun & _ & Hsel).
    destruct Hsel as [-> _]; [discriminate|]. exact Hrun.
Defined.

(** X9: the zone the single-zone lookup returns has the requested gateway
    id and zone id, and is one of the zones the listing of this gateway and
    the listing of all zones return, with the same log. *)
Theorem view_gateway_zone_is_listed {I : Interpreter} (d : json) (gwid : string) (zoneid : nat)
    (zone : zone_record) (log : list event) :
  view_gateway_zone d gwid zoneid = (Ok zone, log) ->
  z_gwid zone = JStr gwid /\
  z_zoneid zone = Z.of_nat zoneid /\
  (exists selected, list_gateway_zones d gwid = (Ok selected, log) /\ In zone selected) /\
  (exists zones, list_thermostats d = (Ok zones, log) /\ In zone zones).
Proof.
  intros Hrun.
  destruct (view_gateway_zone_ok_inv d gwid zoneid zone log Hrun) as (zones & Hzones & Hf).
  assert (Hin : In zone (filter (zone_matches gwid zoneid) zones))
    by (rewrite Hf; now left).
  apply filter_In in Hin; destruct Hin as [Hin Hm].
  apply zone_matches_true in Hm; destruct Hm as [Hg Hz].
  split; [assumption|]. split; [assumption|]. split.
  - unfold list_gateway_zones, list_thermostats.
    destruct (String.eqb gwid "*"); [eauto|].
    exists (filter (fun zone => json_eq_str (z_gwid zone) gwid) zones); split.
    + rewrite (bind_ok _ _ _ _ Hzones); simpl; now rewrite app_nil_r.
    + apply filter_In; split; [assumption | now apply json_eq_str_true].
  - exists zones; split; assumption.
Qed.

Lemma view_gateway_zone_is_listed_witness :
  exists selected,
    list_gateway_zones (I := evaluation) two_locations "G1" = (Ok selected,
       [Log ERROR (Text couldnt_convert_zone_key); Log ERROR (Text couldnt_get_gwid)]) /\
    In (mk_zone_record (JStr "Home") (JStr "G1") (JStr "Main") 3 (JStr "Den")) selected.
Proof.
  exact (proj1 (proj2 (proj2 (view_gateway_zone_is_listed (I := evaluation)
                                two_locations "G1" 3 _ _ eq_refl)))).
Defined.

(** ** Distinct ids and the single-zone lookup *)

Lemma NoDup_app_disjoint {K : Type} (l1 l2 : list K) (k : K) :
  NoDup (l1 ++ l2) -> In k l1 -> In k l2 -> False.
Proof.
  induction l1 as [|x l1 IH]; simpl; intros Hnd H1 H2; [contradiction|].
  inversion Hnd as [|? ? Hx Hnd']; subst.
  destruct H1 as [->|H1]; [apply Hx, in_or_app; now right | now apply IH].
Qed.

Lemma NoDup_flat_map_In {X K : Type} (tag : X -> list K) (xs : list X) (x : X) :
  NoDup (flat_map tag xs) -> In x xs -> NoDup (tag x).
Proof.
  induction xs as [|y xs IH]; simpl; intros Hnd Hin; [contradiction|].
  destruct Hin as [->|Hin].
  - exact (NoDup_app_remove_r _ _ Hnd).
  - exact (IH (NoDup_app_remove_l _ _ Hnd) Hin).
Qed.

(** Among the elements that lists tagged with distinct tags give rise to,
    at most one satisfies a test that only the elements of the list tagged
    [k] can satisfy, when each list holds at most one such element. *)
Lemma filter_flat_map_unique {X R K : Type} (f : X -> list R) (p : R -> bool)
    (tag : X -> list K) (k : K) (xs : list X) :
  NoDup (flat_map tag xs) ->
  (forall x r, In x xs -> In r (f x) -> p r = true -> In k (tag x)) ->
  (forall x, In x xs -> List.length (filter p (f x)) <= 1) ->
  List.length (filter p (flat_map f xs)) <= 1.
Proof.
  induction xs as [|x xs IH]; simpl; intros Hnd Htag Hone; [lia|].
  rewrite filter_app, length_app.
  assert (IH' : List.length (filter p (flat_map f xs)) <= 1).
  { apply IH; [| intros; eapply Htag; eauto | intros; apply Hone; auto].
    exact (NoDup_app_remove_l _ _ Hnd). }
  destruct (filter p (f x)) as [|r rest] eqn:E; [simpl; lia|].
  assert (Hk : In k (tag x)).
  { assert (Hr : In r (filter p (f x))) by (rewrite E; now left).
    apply filter_In in Hr; destruct Hr as [Hr Hp].
    exact (Htag x r (or_introl eq_refl) Hr Hp). }
  assert (Hnone : filter p (flat_map f xs) = []).
  { destruct (filter p (flat_map f xs)) as [|r' rest'] eqn:E'; [reflexivity|].
    exfalso.
    assert (Hr' : In r' (filter p (flat_map f xs))) by (rewrite E'; now left).
    apply filter_In in Hr'; destruct Hr' as [Hr' Hp'].
    apply in_flat_map in Hr'; destruct Hr' as (y & Hy & Hr').
    apply (NoDup_app_disjoint _ _ k Hnd Hk).
    apply in_flat_map; exists y; split; [assumption|].
    exact (Htag y r' (or_intror Hy) Hr' Hp'). }
  rewrite Hnone, Nat.add_0_r.
  specialize (Hone x (or_introl eq_refl)); now rewrite E in Hone.
Qed.

Lemma emitted_zone_at_most_one {I : Interpreter} (location gateway : json) (entry : string * json)
    (p : zone_record -> bool) :
  List.length (filter p (emitted_zone location gateway entry)) <= 1.
Proof.
  unfold emitted_zone.
  destruct (is_not_None (snd entry)); [|simpl; lia].
  destruct (subscript gateway "gwid"), (py_int (str_tail (fst entry))); simpl;
    try lia.
  destruct (p _); simpl; lia.
Qed.

Lemma matching_zones_at_most_one {I : Interpreter} (d : json) (gwid : string) (zoneid : nat) :
  NoDup (flat_map gwid_of (all_gateways d)) ->
  (forall gateway, In gateway (all_gateways d) ->
                   NoDup (flat_map zoneid_of (tstat_names_of gateway))) ->
  List.length (filter (zone_matches gwid zoneid) (expected_zones d)) <= 1.
Proof.
  intros Hgw Hzones; unfold expected_zones.
  unfold all_gateways in Hgw; rewrite flat_map_nested in Hgw.
  apply (filter_flat_map_unique _ _
           (fun location => flat_map gwid_of (gateways_of location)) gwid);
    [exact Hgw | |].
  - intros location zone Hloc Hin Hm.
    apply in_flat_map in Hin; destruct Hin as (gateway & Hg & Hin).
    apply in_flat_map in Hin; destruct Hin as ([key zone_name] & _ & Hin).
    apply emitted_zone_from in Hin; destruct Hin as (_ & _ & _ & Hgwid).
    apply zone_matches_true in Hm; destruct Hm as [Hm _].
    apply in_flat_map; exists gateway; split; [assumption|].
    unfold gwid_of; rewrite Hgwid, Hm; now left.
  - intros location Hloc.
    apply (filter_flat_map_unique _ _ gwid_of gwid).
    + exact (NoDup_flat_map_In _ _ location Hgw Hloc).
    + intros gateway zone Hg Hin Hm.
      apply in_flat_map in Hin; destruct Hin as ([key zone_name] & _ & Hin).
      apply emitted_zone_from in Hin; destruct Hin as (_ & _ & _ & Hgwid).
      apply zone_matches_true in Hm; destruct Hm as [Hm _].
      unfold gwid_of; rewrite Hgwid, Hm; now left.
    + intros gateway Hg.
      apply (filter_flat_map_unique _ _ zoneid_of (Z.of_nat zoneid)).
      * apply Hzones, in_flat_map; exists location; auto.
      * intros [key zone_name] zone _ Hin Hm.
        apply emitted_zone_from in Hin; destruct Hin as (_ & Hnn & Hint & _).
        apply zone_matches_true in Hm; destruct Hm as [_ Hm].
        unfold zoneid_of; simpl fst; simpl snd.
        rewrite Hint, Hm; destruct zone_name; try contradiction; now left.
      * intros entry _; apply emitted_zone_at_most_one.
Qed.

(** X10: when the gateway ids that are strings are pairwise distinct and,
    within each gateway, the zone ids of the enumerated entries are pairwise
    distinct, the single-zone lookup never answers 500: it returns a zone or
    answers 404. *)
Theorem view_gateway_zone_found_or_missing {I : Interpreter} (d : json) (gwid : string)
    (zoneid : nat) :
  zones_shaped d = true ->
  NoDup (flat_map gwid_of (all_gateways d)) ->
  (forall gateway, In gateway (all_gateways d) ->
                   NoDup (flat_map zoneid_of (tstat_names_of gateway))) ->
  (exists zone, view_gateway_zone d gwid zoneid = (Ok zone, expected_zone_log d)) \/
  view_gateway_zone d gwid zoneid = (Raise (HTTPException 404), expected_zone_log d).
Proof.
  intros Hshape Hgw Hzones.
  rewrite (view_gateway_zone_cases d gwid zoneid _ _ (awl_enumerate_zones_shaped d Hshape)).
  pose proof (matching_zones_at_most_one d gwid zoneid Hgw Hzones) as Hle.
  destruct (filter (zone_matches gwid zoneid) (expected_zones d)) as [|z1 [|z2 rest]].
  - now right.
  - left; eauto.
  - simpl in Hle; lia.
Qed.

Lemma view_gateway_zone_found_or_missing_witness :
  (exists zone,
      view_gateway_zone (I := evaluation) two_locations "G1" 3
      = (Ok zone, expected_zone_log (I := evaluation) two_locations)) \/
  view_gateway_zone (I := evaluation) two_locations "G1" 3
  = (Raise (HTTPException 404), expected_zone_log (I := evaluation) two_locations).
Proof.
  apply (view_gateway_zone_found_or_missing (I := evaluation) two_locations "G1" 3).
  - reflexivity.
  - apply (NoDup_count_occ' string_dec); intros x Hx.
    simpl in Hx; destruct Hx as [<-|[<-|[]]]; reflexivity.
  - intros gateway Hin.
    simpl in Hin; destruct Hin as [<-|[<-|[<-|[]]]];
      apply (NoDup_count_occ' Z.eq_dec); intros x Hx;
      simpl in Hx; intuition (subst; reflexivity).
Defined.

(** ** More on the supervision task *)

(** X11: the handler goes on to the reconnection when the wait for the
    closure returns, or raises a connection error and the logout returns or
    raises a login error; it then sleeps one second and announces the
    reconnection right before the session establishment, and has not slept
    before, and the logout is called only after a connection error of the
    wait.  In every other case the exception of the call that fails is the
    handler's, whatever the session establishment would do: when the wait
    raises [e], no connection error, the handler raises [e] right after the
    wait, without a logout; when the logout raises [e], no login error, the
    handler raises [e] right after the logout.  In both cases it neither
    sleeps nor announces a reconnection. *)
Theorem awl_reconnection_handler_outcomes (c : connection) (establish_awl_session : M unit) :
  (reestablishes c ->
   exists before,
     awl_reconnection_handler c establish_awl_session
     = (fst establish_awl_session,
        before ++ [Sleep 1; Log INFO (Text "Reconnecting to AWL")]
        ++ snd establish_awl_session) /\
     ~ In (Sleep 1) before /\
     (In Logout before <-> wait_closed_outcome c = Raise AWLConnectionError)) /\
  (forall e,
      wait_closed_outcome c = Raise e -> e <> AWLConnectionError ->
      awl_reconnection_handler c establish_awl_session = (Raise e, [WaitClosed])) /\
  (forall e,
      wait_closed_outcome c = Raise AWLConnectionError ->
      logout_outcome c = Raise e -> e <> AWLLoginError ->
      awl_reconnection_handler c establish_awl_session
      = (Raise e, [WaitClosed; Log INFO (Text "Logging out of AWL"); Logout])).
Proof.
  destruct c as [w l]; unfold reestablishes; simpl; split; [|split].
  - intros [ -> | [ -> [ -> | -> ] ] ]; destruct establish_awl_session as [r t].
    + exists [WaitClosed; Log DEBUG (Text "app.awl_connection.wait_closed() finished")].
      split; [reflexivity|]. split; simpl; [intuition discriminate|].
      split; [intuition discriminate | discriminate].
    + exists [WaitClosed; Log INFO (Text "Logging out of AWL"); Logout;
              Log INFO (Text "AWL logout complete")].
      split; [reflexivity|]. split; simpl; [intuition discriminate | tauto].
    + exists [WaitClosed; Log INFO (Text "Logging out of AWL"); Logout;
              Log INFO (Text "AWL logout failed; ignoring")].
      split; [reflexivity|]. split; simpl; [intuition discriminate | tauto].
  - intros e -> He; destruct e; try reflexivity; contradiction.
  - intros e -> -> He; destruct e; try reflexivity; contradiction.
Qed.

Lemma awl_reconnection_handler_outcomes_witness :
  (exists before,
      awl_reconnection_handler (mk_connection (Ok tt) (Ok tt)) (ret tt)
      = (Ok tt, before ++ [Sleep 1; Log INFO (Text "Reconnecting to AWL")] ++ []) /\
      ~ In (Sleep 1) before /\
      (In Logout before <-> @Ok unit tt = Raise AWLConnectionError)) /\
  awl_reconnection_handler (mk_connection (Raise KeyError) (Ok tt)) (emit (Sleep 60))
  = (Raise KeyError, [WaitClosed]) /\
  awl_reconnection_handler (mk_connection (Raise AWLConnectionError) (Raise ValueError))
    (emit (Sleep 60))
  = (Raise ValueError, [WaitClosed; Log INFO (Text "Logging out of AWL"); Logout]).
Proof.
  split; [|split].
  - apply (proj1 (awl_reconnection_handler_outcomes (mk_connection (Ok tt) (Ok tt)) (ret tt))).
    now left.
  - apply (proj1 (proj2 (awl_reconnection_handler_outcomes
                           (mk_connection (Raise KeyError) (Ok tt)) (emit (Sleep 60))))
             KeyError); [reflexivity | discriminate].
  - apply (proj2 (proj2 (awl_reconnection_handler_outcomes
                           (mk_connection (Raise AWLConnectionError) (Raise ValueError))
                           (emit (Sleep 60))))
             ValueError); [reflexivity | reflexivity | discriminate].
Defined.

(** ** More on the configuration *)

Lemma get_update_notin {V : Type} (l : list (string * V)) :
  forall (d : Dict.t V) (k : string),
    ~ In k (Dict.keys l) -> Dict.get (Dict.update d l) k = Dict.get d k.
Proof.
  unfold Dict.update.
  induction l as [|[k1 v1] l IH]; simpl; intros d k Hk; [reflexivity|].
  rewrite IH by tauto.
  apply DictFacts.get_set_other; tauto.
Qed.

Lemma get_update_in {V : Type} (l : list (string * V)) :
  forall (d : Dict.t V) (k : string) (v : V),
    Dict.wf l -> Dict.get l k = Some v -> Dict.get (Dict.update d l) k = Some v.
Proof.
  induction l as [|[k1 v1] l IH]; simpl; intros d k v Hwf Hget; [discriminate|].
  inversion Hwf as [|? ? Hk1 Hwf']; subst.
  change (Dict.update d ((k1, v1) :: l)) with (Dict.update (Dict.set d k1 v1) l).
  destruct (String.eqb k1 k) eqn:E.
  - apply String.eqb_eq in E; subst k1; inversion Hget; subst v1.
    rewrite get_update_notin by assumption.
    apply DictFacts.get_set_same.
  - now apply IH.
Qed.

Lemma from_mapping_other {I : Interpreter} (mapping : list (string * config_value)) (cfg : config)
    (key : string) :
  ~ In key (Dict.keys (filter (fun kv => isupper (fst kv)) mapping)) ->
  Dict.get (from_mapping cfg mapping) key = Dict.get cfg key.
Proof. intros H; unfold from_mapping; now apply get_update_notin. Qed.

Lemma from_mapping_lower {I : Interpreter} (mapping : list (string * config_value)) (cfg : config)
    (key : string) :
  isupper key = false -> Dict.get (from_mapping cfg mapping) key = Dict.get cfg key.
Proof.
  intros Hkey; apply from_mapping_other; intros Hin.
  apply (DictFacts.keys_filter_incl isupper) in Hin; destruct Hin; congruence.
Qed.

Lemma from_mapping_keeps {I : Interpreter} (mapping : list (string * config_value)) (cfg : config)
    (key : string) :
  Dict.get cfg key <> None -> Dict.get (from_mapping cfg mapping) key <> None.
Proof.
  intros H Hnone; unfold from_mapping in Hnone.
  apply DictFacts.get_None_notin in Hnone; apply Hnone.
  apply In_keys_update; left.
  destruct (in_dec string_dec key (Dict.keys cfg)) as [Hin|Hnin]; [assumption|].
  now apply DictFacts.notin_get_None in Hnin.
Qed.

(** X12: when the configuration file is loaded, a setting of the file whose
    name is in upper case overrides the defaults of the module, the warning
    threshold included; a setting whose name is not in upper case is
    ignored, so such a key is in the configuration only if the defaults of
    the framework hold it.  Upper case is what [str.isupper] of the
    interpreter says. *)
Theorem config_file_overrides {I : Interpreter} (defaults : config)
    (env instance_path : string) (settings : list (string * config_value))
    (key : string) :
  exists cfg,
    app_config defaults env instance_path (Some (Ok settings)) = Ok cfg /\
    (forall v,
        Dict.wf settings -> isupper key = true ->
        Dict.get settings key = Some v ->
        Dict.get cfg key = Some v) /\
    (isupper key = false -> Dict.get cfg key = Dict.get defaults key).
Proof.
  eexists; split; [reflexivity|]. split.
  - intros v Hwf Hkey Hget; unfold from_mapping at 1.
    apply get_update_in; [apply DictFacts.wf_filter, Hwf|].
    now rewrite (DictFacts.get_filter isupper).
  - intros Hkey.
    rewrite !from_mapping_lower by assumption.
    destruct (String.eqb env "development" || String.eqb env "testing");
      [now apply from_mapping_lower|].
    destruct (String.eqb env "production"); [now apply from_mapping_lower | reflexivity].
Qed.

Lemma config_file_overrides_witness :
  exists cfg,
    app_config (I := evaluation) [] "production" "/srv/instance"
      (Some (Ok [("WEBSOCKETS_WARN_AFTER_DISCONNECTED", CInt 60);
                 ("trace_log", CStr "t.log")]))
    = Ok cfg /\
    Dict.get cfg "WEBSOCKETS_WARN_AFTER_DISCONNECTED" = Some (CInt 60) /\
    Dict.get cfg "trace_log" = None.
Proof.
  destruct (config_file_overrides (I := evaluation) [] "production" "/srv/instance"
              [("WEBSOCKETS_WARN_AFTER_DISCONNECTED", CInt 60);
               ("trace_log", CStr "t.log")]
              "WEBSOCKETS_WARN_AFTER_DISCONNECTED") as (cfg & Hcfg & Hupper & _).
  destruct (config_file_overrides (I := evaluation) [] "production" "/srv/instance"
              [("WEBSOCKETS_WARN_AFTER_DISCONNECTED", CInt 60);
               ("trace_log", CStr "t.log")]
              "trace_log") as (cfg' & Hcfg' & _ & Hlower).
  exists cfg; split; [exact Hcfg|]. split.
  - apply Hupper; [apply wf_of_nodupb; reflexivity | reflexivity | reflexivity].
  - rewrite Hcfg in Hcfg'; injection Hcfg' as <-.
    apply Hlower; reflexivity.
Defined.

(** X13: when the environment variable [WATERFURNACE_CONFIG] is not set, the
    loading of the configuration file raises [TypeError], so the module
    stops before the check of the required keys.  When the file is loaded,
    the check never stops the module for [LOG_DIRECTORY], which the module
    sets itself; it stops the module for [WATERFURNACE_USER] when neither
    the defaults of the framework nor the configuration file hold this
    key. *)
Theorem required_keys_check {I : Interpreter} (defaults : config)
    (env instance_path : string) :
  app_config defaults env instance_path None = Raise TypeError /\
  forall settings : list (string * config_value),
  exists cfg,
    app_config defaults env instance_path (Some (Ok settings)) = Ok cfg /\
    missing_config_key cfg <> Some "LOG_DIRECTORY" /\
    (Dict.get defaults "WATERFURNACE_USER" = None ->
     ~ In "WATERFURNACE_USER" (Dict.keys settings) ->
     missing_config_key cfg = Some "WATERFURNACE_USER").
Proof.
  split; [reflexivity|].
  intros settings; eexists; split; [reflexivity|]. split.
  - match goal with
    | |- missing_config_key ?cfg <> _ =>
        assert (H : not_in_config cfg "LOG_DIRECTORY" = false)
    end.
    { unfold not_in_config.
      destruct (Dict.get _ "LOG_DIRECTORY") eqn:E; [reflexivity|].
      exfalso; revert E.
      apply from_mapping_keeps.
      unfold from_mapping at 1.
      erewrite get_update_in; [discriminate | apply wf_of_nodupb; reflexivity | reflexivity]. }
    unfold missing_config_key, required_config_keys; simpl find.
    rewrite H.
    destruct (not_in_config _ "WATERFURNACE_USER"); [discriminate|].
    destruct (not_in_config _ "WATERFURNACE_PASSWORD"); discriminate.
  - intros Hdef Hfile.
    match goal with
    | |- missing_config_key ?cfg = _ =>
        assert (H : Dict.get cfg "WATERFURNACE_USER" = None)
    end.
    { rewrite from_mapping_other
        by (intros Hin; apply (DictFacts.keys_filter_incl isupper) in Hin; tauto).
      rewrite from_mapping_other by (simpl; intuition discriminate).
      destruct (String.eqb env "development" || String.eqb env "testing");
        [rewrite from_mapping_other by (simpl; intuition discriminate); assumption|].
      destruct (String.eqb env "production");
        [rewrite from_mapping_other by (simpl; intuition discriminate); assumption
        | assumption]. }
    unfold missing_config_key, required_config_keys; simpl find.
    unfold not_in_config at 1; now rewrite H.
Qed.

Lemma required_keys_check_witness :
  app_config (I := evaluation) [] "production" "/srv/instance" None = Raise TypeError /\
  exists cfg,
    app_config (I := evaluation) [] "production" "/srv/instance" (Some (Ok [])) = Ok cfg /\
    missing_config_key cfg = Some "WATERFURNACE_USER".
Proof.
  destruct (required_keys_check (I := evaluation) [] "production" "/srv/instance")
    as [Hunset Hloaded].
  split; [exact Hunset|].
  destruct (Hloaded []) as (cfg & Hcfg & _ & Huser).
  exists cfg; split; [exact Hcfg|].
  apply Huser; [reflexivity | intros []].
Defined.

(** ** Malformed login data *)

Lemma bind_ext {A B : Type} (m : M A) (f g : A -> M B) :
  (forall a, f a = g a) -> bind m f = bind m g.
Proof. intros H; destruct m as [[a|e] t]; simpl; [now rewrite H | reflexivity]. Qed.

Lemma bind_assoc {A B C : Type} (m : M A) (f : A -> M B) (g : B -> M C) :
  bind (bind m f) g = bind m (fun a => bind (f a) g).
Proof.
  destruct m as [[a|e] t]; simpl; [|reflexivity].
  destruct (f a) as [[b|e] t2]; simpl; [|reflexivity].
  destruct (g b) as [r t3]; now rewrite app_assoc.
Qed.

Lemma for_each_app {X S : Type} (body : X -> S -> M S) (xs1 xs2 : list X) :
  forall s,
    for_each (xs1 ++ xs2) body s
    = bind (for_each xs1 body s) (fun s' => for_each xs2 body s').
Proof.
  induction xs1 as [|x xs1 IH]; intros s; simpl.
  - unfold ret, bind; destruct (for_each xs2 body s); reflexivity.
  - rewrite bind_assoc; apply bind_ext; intros s'; apply IH.
Qed.

(** A loop stops at the first round that raises: the rounds before it have
    logged, the rounds after it do not run. *)
Lemma for_each_raise_at {X R : Type} (f : X -> list R) (lg : X -> list event)
    (body : X -> list R -> M (list R)) (xs1 xs2 : list X) (x : X) (e : exn)
    (t : list event) :
  (forall y, In y xs1 -> forall s, body y s = (Ok (s ++ f y), lg y)) ->
  (forall s, body x s = (Raise e, t)) ->
  forall s, for_each (xs1 ++ x :: xs2) body s = (Raise e, flat_map lg xs1 ++ t).
Proof.
  intros Hok Hraise s.
  rewrite for_each_app, (for_each_append f lg body xs1 Hok s); simpl.
  now rewrite Hraise.
Qed.

Lemma zone_gateway_body {I : Interpreter} (lm : Dict.t json) (gateway : json)
    (thermostats : list zone_record) :
  zone_gateway_ok gateway = true ->
  (tstat_names <- lift (rbind (subscript gateway "tstat_names") items) ;;
   for_each tstat_names (fun '(key, zone_name) thermostats =>
     if is_not_None zone_name then
       try_except
         (l <- lift (get_method (JObj lm) "description") ;;
          g <- lift (subscript gateway "gwid") ;;
          n <- lift (get_method gateway "description") ;;
          z <- lift (py_int (str_tail key)) ;;
          ret (thermostats ++ [mk_zone_record l g n z zone_name]))
         (fun e =>
            match e with
            | ValueError => Some (log ERROR couldnt_convert_zone_key ;; ret thermostats)
            | KeyError => Some (log ERROR couldnt_get_gwid ;; ret thermostats)
            | _ => None
            end)
     else ret thermostats)
     thermostats)%comp
  = (Ok (thermostats
         ++ flat_map (emitted_zone (JObj lm) gateway) (tstat_names_of gateway)),
     flat_map (skipped_zone gateway) (tstat_names_of gateway)).
Proof.
  unfold zone_gateway_ok, tstat_names_of; intros Hok.
  destruct gateway as [| | | | |gm]; try discriminate.
  destruct (subscript (JObj gm) "tstat_names") as [[| | | | |names]|]; try discriminate.
  simpl rbind; rewrite bind_lift_ok.
  apply (for_each_append (emitted_zone (I := I) (JObj lm) (JObj gm))
           (skipped_zone (I := I) (JObj gm))).
  intros [key zone_name] _ ts; apply zone_body.
Qed.

(** X14: the zone enumeration returns no partial result: a gateway that is a
    mapping without [tstat_names] makes it raise [KeyError], whatever the
    gateways and locations after it hold; the zones gathered before it are
    not returned, and only the lines logged before it remain. *)
Theorem awl_enumerate_zones_stops_at_broken_gateway {I : Interpreter} (d : json)
    (locations1 locations2 gateways1 gateways2 : list json) (lm gm : Dict.t json) :
  subscript d "locations" = Ok (JArr (locations1 ++ JObj lm :: locations2)) ->
  forallb zone_location_ok locations1 = true ->
  Dict.get lm "gateways" = Some (JArr (gateways1 ++ JObj gm :: gateways2)) ->
  forallb zone_gateway_ok gateways1 = true ->
  Dict.get gm "tstat_names" = None ->
  exists log, awl_enumerate_zones d = (Raise KeyError, log).
Proof.
  intros Hlocs Hlocs1 Hgws Hgws1 Hgm.
  eexists; unfold awl_enumerate_zones.
  rewrite Hlocs; simpl rbind; rewrite bind_lift_ok.
  apply (for_each_raise_at
           (fun location =>
              flat_map
                (fun gateway =>
                   flat_map (emitted_zone (I := I) location gateway) (tstat_names_of gateway))
                (gateways_of location))
           (fun location =>
              flat_map
                (fun gateway => flat_map (skipped_zone (I := I) gateway) (tstat_names_of gateway))
                (gateways_of location))).
  - intros location Hin s.
    rewrite forallb_forall in Hlocs1; specialize (Hlocs1 location Hin).
    unfold zone_location_ok in Hlocs1; unfold gateways_of.
    destruct location as [| | | | |lm']; try discriminate.
    destruct (subscript (JObj lm') "gateways") as [[| | | |gateways|]|]; try discriminate.
    simpl rbind; rewrite bind_lift_ok.
    apply (for_each_append
             (fun gateway =>
                flat_map (emitted_zone (I := I) (JObj lm') gateway) (tstat_names_of gateway))
             (fun gateway => flat_map (skipped_zone (I := I) gateway) (tstat_names_of gateway))).
    intros gateway Hg ts.
    rewrite forallb_forall in Hlocs1.
    apply zone_gateway_body, Hlocs1, Hg.
  - intros s.
    unfold subscript at 1; rewrite Hgws; simpl rbind; rewrite bind_lift_ok.
    apply (for_each_raise_at
             (fun gateway =>
                flat_map (emitted_zone (I := I) (JObj lm) gateway) (tstat_names_of gateway))
             (fun gateway => flat_map (skipped_zone (I := I) gateway) (tstat_names_of gateway))).
    + intros gateway Hg ts.
      rewrite forallb_forall in Hgws1.
      apply zone_gateway_body, Hgws1, Hg.
    + intros ts; unfold subscript at 1; rewrite Hgm; reflexivity.
Qed.

Lemma awl_enumerate_zones_stops_at_broken_gateway_witness :
  exists log,
    awl_enumerate_zones (I := evaluation) broken_gateway_login = (Raise KeyError, log).
Proof.
  apply (awl_enumerate_zones_stops_at_broken_gateway (I := evaluation) broken_gateway_login
           [] []
           [JObj [("gwid", JStr "G1"); ("tstat_names", JObj [("z1", JStr "Upstairs")])]]
           [JObj [("gwid", JStr "G3"); ("tstat_names", JObj [("z1", JStr "Cabin")])]]
           [("gateways", JArr [
              JObj [("gwid", JStr "G1"); ("tstat_names", JObj [("z1", JStr "Upstairs")])];
              JObj [("gwid", JStr "G2")];
              JObj [("gwid", JStr "G3"); ("tstat_names", JObj [("z1", JStr "Cabin")])]])]
           [("gwid", JStr "G2")]); reflexivity.
Defined.

(** X15: the zone routes hand on the failure of the zone enumeration as it
    is, with its log: on login data the enumeration cannot iterate over, the
    single-zone lookup does not answer 404 and the listing of a gateway does
    not return the empty list. *)
Theorem zone_routes_propagate_failure {I : Interpreter} (d : json) (e : exn) (log : list event)
    (gwid : string) (zoneid : nat) :
  awl_enumerate_zones d = (Raise e, log) ->
  list_thermostats d = (Raise e, log) /\
  list_gateway_zones d gwid = (Raise e, log) /\
  view_gateway_zone d gwid zoneid = (Raise e, log).
Proof.
  intros Hrun.
  unfold list_gateway_zones, view_gateway_zone, list_thermostats.
  split; [assumption|]. split.
  - destruct (String.eqb gwid "*"); [assumption | now rewrite Hrun].
  - now rewrite Hrun.
Qed.

Lemma zone_routes_propagate_failure_witness :
  view_gateway_zone (I := evaluation) no_tstat_names_login "G1" 1 = (Raise KeyError, []).
Proof.
  exact (proj2 (proj2 (zone_routes_propagate_failure (I := evaluation)
                         no_tstat_names_login KeyError [] "G1" 1 eq_refl))).
Defined.
